(** * The peer-configuration pipeline of [main.go]

    A shallow embedding of the executable part of [main] (flag handling
    after parsing, template and configuration loading, the global
    artifact, the stale-file cleanup and the per-peer pass) together
    with the properties the specification states about it.

    Go strings are byte sequences; they are modelled by [string], whose
    characters are the 256 values of [ascii].  The peer table
    [map[string]*peer] is a finite map from names to pointers into a
    store of peer records, so that the in-place assignment
    [peerData.ProtocolName = ...] is an update of the shared store. *)

From Stdlib Require Import Strings.String Strings.Ascii NArith Lia.
From stdpp Require Import base option list strings gmap pretty.

Local Open Scope N_scope.

(** ** Bytes and identifier characters *)

Module Byte.

(** [unicode.IsDigit(rune(b))] for a byte [b]: the rune is at most
    [MaxLatin1], where [IsDigit] is the test ['0' <= r && r <= '9']. *)
Definition IsDigit (b : ascii) : bool :=
  (48 <=? N_of_ascii b) && (N_of_ascii b <=? 57).

Definition is_upper (b : ascii) : bool :=
  (65 <=? N_of_ascii b) && (N_of_ascii b <=? 90).

Definition is_lower (b : ascii) : bool :=
  (97 <=? N_of_ascii b) && (N_of_ascii b <=? 122).

Definition is_underscore (b : ascii) : bool :=
  N_of_ascii b =? 95.

(** A character of the target identifier grammar: an ASCII letter, a
    decimal digit or the underscore. *)
Definition is_ident (b : ascii) : bool :=
  is_upper b || is_lower b || IsDigit b || is_underscore b.

End Byte.

(** ** Strings *)

Module Str.

Fixpoint map (f : ascii → ascii) (s : string) : string :=
  match s with
  | EmptyString => EmptyString
  | String c s' => String (f c) (map f s')
  end.

Fixpoint forallb (f : ascii → bool) (s : string) : bool :=
  match s with
  | EmptyString => true
  | String c s' => f c && forallb f s'
  end.

Fixpoint filter (f : ascii → bool) (s : string) : string :=
  match s with
  | EmptyString => EmptyString
  | String c s' => if f c then String c (filter f s') else filter f s'
  end.

(** The first byte, [s[0]]; [None] stands for the run-time panic
    "index out of range" on the empty string. *)
Definition head (s : string) : option ascii :=
  match s with
  | EmptyString => None
  | String c _ => Some c
  end.

End Str.

(** ** Identifiers *)

(** The identifier grammar of the generated configuration: a non-empty
    run of identifier characters that does not start with a digit. *)
Definition valid_identifier (s : string) : bool :=
  match s with
  | EmptyString => false
  | String c _ => negb (Byte.IsDigit c) && Str.forallb Byte.is_ident s
  end.

Definition begins_with_digit (s : string) : bool :=
  match s with
  | EmptyString => false
  | String c _ => Byte.IsDigit c
  end.

(** ** The sanitizer step of the per-peer pass (lines 114-120)

    [normalize san name] is the value assigned to [ProtocolName] for the
    declared name [name], with [san] the repository's [sanitize].  The
    digit test indexes [peerName[0]]; on the empty name that index
    panics, which is the [None] result. *)
Definition normalize (san : string → string) (peerName : string) : option string :=
  c ← Str.head peerName;
  if Byte.IsDigit c
  then Some ("PEER_" +:+ san peerName)
  else Some (san peerName).

(** ** Data model *)

(** Modelled from the spec: the declaration of the [peer] struct is not in
    main.go.  The fields are the ones main.go names (in the per-peer pass,
    in [printPeerInfo] and in the disabled block); the ASN and the import
    limits are unsigned integers, for which zero means "unset". *)
Record peer := Peer {
  Name : string;
  ProtocolName : string;
  Asn : N;
  Type_ : string;
  AsSet : string;
  ImportLimit4 : N;
  ImportLimit6 : N;
  NoPeeringDB : bool;
  QueryTime : string;
  PrefixSet4 : list string;
  PrefixSet6 : list string;
  SessionGlobal : string;
  PreImport : string;
  PreExport : string;
  PreImportFinal : string;
  PreExportFinal : string
}.

(** The assignment [peerData.ProtocolName = v]. *)
Definition set_ProtocolName (v : string) (p : peer) : peer :=
  {| Name := Name p; ProtocolName := v; Asn := Asn p; Type_ := Type_ p;
     AsSet := AsSet p; ImportLimit4 := ImportLimit4 p;
     ImportLimit6 := ImportLimit6 p; NoPeeringDB := NoPeeringDB p;
     QueryTime := QueryTime p; PrefixSet4 := PrefixSet4 p;
     PrefixSet6 := PrefixSet6 p; SessionGlobal := SessionGlobal p;
     PreImport := PreImport p; PreExport := PreExport p;
     PreImportFinal := PreImportFinal p; PreExportFinal := PreExportFinal p |}.

(** Two records that agree on every field except, possibly,
    [ProtocolName]. *)
Definition same_but_ProtocolName (p q : peer) : Prop :=
  q = set_ProtocolName (ProtocolName q) p.

(** Addresses of peer records; a [*peer] is an address or [nil]. *)
Abbreviation addr := positive (only parsing).
Abbreviation ptr := (option addr) (only parsing).

(** Modelled from the spec: the declaration of the [config] struct is not
    in main.go.  The fields are the ones main.go reads. *)
Record config := Config {
  BirdDirectory : string;
  BirdSocket : string;
  IrrDb : string;
  Peers : gmap string ptr
}.

(** Modelled from the spec: the declaration of [cliFlags] is not in
    main.go.  The fields are the ones main.go reads. *)
Record cli := Cli {
  ConfigFile : string;
  DryRun : bool;
  Verbose : bool;
  ShowVersion : bool;
  NoConfigure : bool
}.

(** Modelled from the spec: the registry answer used by the disabled
    block, [lookup(asn) -> {maxImport4, maxImport6, asSet}]; [DbAsSet]
    is its [AsSet] field. *)
Record peeringDbData := PeeringDbData {
  MaxPfx4 : N;
  MaxPfx6 : N;
  DbAsSet : string
}.

(** ** The world the process runs in *)

Inductive level := DebugLevel | InfoLevel | WarnLevel | FatalLevel.

(** The file system maps the path of each regular file to its contents,
    one path per file; the store holds the peer records of the process;
    the journal lists the calls made to the logger, oldest first and
    whatever the log level in force. *)
Record world := World {
  files : gmap string string;
  store : gmap addr peer;
  journal : list (level * string)
}.

Definition with_files (f : gmap string string) (w : world) : world :=
  {| files := f; store := store w; journal := journal w |}.

Definition with_store (h : gmap addr peer) (w : world) : world :=
  {| files := files w; store := h; journal := journal w |}.

Definition with_entry (e : level * string) (w : world) : world :=
  {| files := files w; store := store w; journal := journal w ++ [e] |}.

(** How a computation ends: it yields a value, the process exits with a
    status ([os.Exit], [log.Fatal]), or a run-time panic kills it. *)
Inductive outcome (A : Type) :=
  | Done (a : A)
  | Exit (status : N)
  | Panic.
Arguments Done {A} a.
Arguments Exit {A} status.
Arguments Panic {A}.

Definition M (A : Type) : Type := world → outcome A * world.

Definition ret {A} (a : A) : M A := λ w, (Done a, w).

Definition bind {A B} (m : M A) (k : A → M B) : M B :=
  λ w, match m w with
       | (Done a, w') => k a w'
       | (Exit s, w') => (Exit s, w')
       | (Panic, w') => (Panic, w')
       end.

Notation "'let*' x := m 'in' k" := (bind m (λ x, k))
  (at level 10, x pattern, m at level 100, k at level 200).
Notation "m ;;; k" := (bind m (λ _, k))
  (at level 100, k at level 200, right associativity).

Definition panic {A} : M A := λ w, (Panic, w).
Definition os_Exit {A} (status : N) : M A := λ w, (Exit status, w).

Definition logf (lv : level) (msg : string) : M unit :=
  λ w, (Done tt, with_entry (lv, msg) w).

(** [log.Fatal] and [log.Fatalf]: log the message, then exit with
    status 1. *)
Definition log_Fatal {A} (msg : string) : M A :=
  λ w, (Exit 1, with_entry (FatalLevel, msg) w).

(** [for _, x := range xs { body }] over an enumeration [xs]. *)
Fixpoint for_each {A} (xs : list A) (body : A → M unit) : M unit :=
  match xs with
  | [] => ret tt
  | x :: xs' => body x ;;; for_each xs' body
  end.


(** The result and the final world of a computation started in [w]. *)
Definition result {A} (m : M A) (w : world) : outcome A := (m w).1.
Definition exec {A} (m : M A) (w : world) : world := (m w).2.

(** ** Frames: what a computation may change

    [keeps R m] says that [m] takes a world only to worlds related to it
    by [R], however it ends. *)

Definition keeps {A} (R : relation world) (m : M A) : Prop :=
  ∀ w, R w (exec m w).

(** The frames of the pipeline. *)

(** The file system is as it was. *)
Definition same_files : relation world := λ w w', files w' = files w.

(** The store is as it was. *)
Definition same_store : relation world := λ w w', store w' = store w.

(** Every record is still there and differs at most in [ProtocolName]. *)
Definition records_kept : relation world := λ w w',
  ∀ a p, store w !! a = Some p →
         ∃ p', store w' !! a = Some p' ∧ same_but_ProtocolName p p'.

(** Nothing was removed from the journal. *)
Definition journal_grows : relation world := λ w w',
  ∀ e, e ∈ journal w → e ∈ journal w'.

(** No warning was added to the journal. *)
Definition no_new_warning : relation world := λ w w',
  ∀ e, e ∈ journal w' → e ∈ journal w ∨ e.1 ≠ WarnLevel.

(** No file other than [g] was created or written: any other path is
    absent or holds what it held. *)
Definition writes_only (g : string) : relation world := λ w w',
  ∀ path, path ≠ g →
          files w' !! path = None ∨ files w' !! path = files w !! path.

(** Both frames at once. *)
Definition both (R1 R2 : relation world) : relation world :=
  λ w w', R1 w w' ∧ R2 w w'.

(** ** What the pipeline is linked against

    Functions of the repository that live outside main.go, and the
    library and system calls [main] makes.  An error is the text of
    [err.Error()]. *)
Record env := Env {
  (** [var version], "set by the build process". *)
  version : string;
  (** [sanitize], from the repository's helpers. *)
  sanitize : string → string;
  (** [flags.ParseArgs(&cliFlags, os.Args)]. *)
  flags_ParseArgs : list string → string + cli;
  (** [loadTemplates(embedFs)]: [Some] is the error. *)
  loadTemplates : option string;
  (** [loadConfig]: an error, or the configuration together with the
      peer records it allocated. *)
  loadConfig : string → string + (config * gmap addr peer);
  (** [globalTemplate.ExecuteTemplate(w, name, globalConfig)]: the bytes
      the template wrote to [w] and, when execution stopped early, the
      error.  The template reads the configuration and the peer records
      it points to. *)
  ExecuteTemplate : string → config → gmap addr peer → string * option string;
  (** [path.Join]. *)
  path_Join : string → string → string;
  (** [filepath.Glob] on the current file system. *)
  filepath_Glob : gmap string string → string → string + list string;
  (** Whether the system refuses [os.Create] or [os.Remove] on a path
      (permissions, missing directory, ...): [Some] is the error. *)
  os_Create_err : gmap string string → string → option string;
  os_Remove_err : gmap string string → string → option string;
  (** The order in which [range] enumerates a peer table: some
      enumeration of its entries, each exactly once. *)
  range_order : ∀ m : gmap string ptr, { l | l ≡ₚ map_to_list m }
}.

(** ** Operating-system and library calls *)

(** [ioutil.ReadFile]: the contents of the file, or an error. *)
Definition ioutil_ReadFile (name : string) : M (string + string) :=
  λ w, match files w !! name with
       | Some data => (Done (inr data), w)
       | None => (Done (inl ("open " +:+ name +:+ ": no such file or directory")), w)
       end.

(** [strings.Contains]. *)
Fixpoint strings_Contains (s substr : string) : bool :=
  String.prefix substr s ||
  match s with
  | EmptyString => false
  | String _ s' => strings_Contains s' substr
  end.

Section Pipeline.

Variable E : env.

(** [os.Create]: creates the file, or truncates it when it exists.
    The handle is the path. *)
Definition os_Create (name : string) : M (string + string) :=
  λ w, match os_Create_err E (files w) name with
       | Some err => (Done (inl err), w)
       | None => (Done (inr name), with_files (<[name := ""]> (files w)) w)
       end.

(** [os.Remove]. *)
Definition os_Remove (name : string) : M (option string) :=
  λ w, match os_Remove_err E (files w) name with
       | Some err => (Done (Some err), w)
       | None => (Done None, with_files (delete name (files w)) w)
       end.

Definition Glob (pattern : string) : M (string + list string) :=
  λ w, (Done (filepath_Glob E (files w) pattern), w).

(** Executing the global template into the open file [f]: the output
    is appended to the file as it is produced, also when execution
    fails. *)
Definition globalTemplate_ExecuteTemplate (f : string) (name : string)
    (data : config) : M (option string) :=
  λ w, let '(out, err) := ExecuteTemplate E name data (store w) in
       (Done err, with_files (alter (λ old, old +:+ out) f (files w)) w).

(** *** Lines 81-110: the global artifact and the stale-file cleanup *)

Definition remove_old (f : string) : M unit :=
  let* err := os_Remove f in
  match err with
  | Some e => log_Fatal ("Removing old config files: " +:+ e)
  | None => ret tt
  end.

Definition global_path (globalConfig : config) : string :=
  path_Join E (BirdDirectory globalConfig) "bird.conf".

(** Lines 90-107, with the global file open. *)
Definition render_and_clean (globalFile : string) (globalConfig : config) : M unit :=
  let* err := globalTemplate_ExecuteTemplate globalFile "global.tmpl" globalConfig in
  match err with
  | Some e => log_Fatal ("Execute global template: " +:+ e)
  | None =>
    logf DebugLevel "Finished writing global config file" ;;;
    let* g := Glob (path_Join E (BirdSocket globalConfig) "AS*.conf") in
    match g with
    | inl e => log_Fatal e
    | inr old => for_each old remove_old
    end
  end.

Definition write_global (fl : cli) (globalConfig : config) : M unit :=
  if negb (DryRun fl) then
    logf DebugLevel "Creating global config" ;;;
    let* r := os_Create (global_path globalConfig) in
    match r with
    | inl err => log_Fatal ("Create global BIRD output file: " +:+ err)
    | inr globalFile =>
      logf DebugLevel "Finished creating global config file" ;;;
      logf DebugLevel "Writing global config file" ;;;
      render_and_clean globalFile globalConfig
    end
  else
    logf InfoLevel
      "Dry run is enabled, skipped writing global config and removing old peer configs".

(** *** Lines 113-122: the per-peer pass *)

(** The record a pointer leads to; [nil] leads nowhere. *)
Definition deref (peerData : ptr) (w : world) : option peer :=
  a ← peerData; store w !! a.

(** The assignment [peerData.ProtocolName = v]; through a nil pointer
    it panics. *)
Definition assign_ProtocolName (peerData : ptr) (v : string) : M unit :=
  λ w, match peerData with
       | Some a =>
         match store w !! a with
         | Some p => (Done tt, with_store (<[a := set_ProtocolName v p]> (store w)) w)
         | None => (Panic, w)
         end
       | None => (Panic, w)
       end.

(** Reading [peerData.Asn]. *)
Definition read_Asn (peerData : ptr) : M N :=
  λ w, match deref peerData w with
       | Some p => (Done (Asn p), w)
       | None => (Panic, w)
       end.

(** The line logged for a peer. *)
Definition checking_line (peerName : string) (asn : N) : level * string :=
  (InfoLevel, "Checking config for " +:+ peerName +:+ " AS" +:+ pretty asn).

(** The loop body, for the entry [(peerName, peerData)]. *)
Definition check_peer (entry : string * ptr) : M unit :=
  let '(peerName, peerData) := entry in
  match normalize (sanitize E) peerName with
  | None => panic
  | Some v =>
    assign_ProtocolName peerData v ;;;
    let* asn := read_Asn peerData in
    λ w, (Done tt, with_entry (checking_line peerName asn) w)
  end.

Definition peer_pass (globalConfig : config) : M unit :=
  for_each (proj1_sig (range_order E (Peers globalConfig))) check_peer.

(** *** [main] *)

(** The records of the loaded configuration become the store. *)
Definition install (records : gmap addr peer) : M unit :=
  λ w, (Done tt, with_store records w).

(** The run once the flags are parsed. *)
Definition run (fl : cli) : M unit :=
  if ShowVersion fl then
    logf InfoLevel
      ("wireframe version " +:+ version E +:+ " (https://github.com/natesales/wireframe)") ;;;
    os_Exit 0
  else
    logf InfoLevel ("Starting  " +:+ version E) ;;;
    match loadTemplates E with
    | Some err => log_Fatal err
    | None =>
      logf DebugLevel "Finished loading templates" ;;;
      logf DebugLevel ("Loading config from " +:+ ConfigFile fl) ;;;
      let* r := ioutil_ReadFile (ConfigFile fl) in
      match r with
      | inl err => log_Fatal ("reading config file: " +:+ err)
      | inr configFile =>
        match loadConfig E configFile with
        | inl err => log_Fatal err
        | inr (globalConfig, records) =>
          install records ;;;
          write_global fl globalConfig ;;;
          peer_pass globalConfig
        end
      end
    end.

Definition main (args : list string) : M unit :=
  match flags_ParseArgs E args with
  | inl err =>
    if negb (strings_Contains err "Usage") then log_Fatal err else os_Exit 1
  | inr fl => run fl
  end.

(** The configuration a run loads, when it gets that far. *)
Definition loads (fl : cli) (w : world) (globalConfig : config)
    (records : gmap addr peer) : Prop :=
  ShowVersion fl = false ∧ loadTemplates E = None ∧
  ∃ configFile, files w !! ConfigFile fl = Some configFile ∧
                loadConfig E configFile = inr (globalConfig, records).

(** The world once the declaration file has been read: the start-up
    lines are in the journal. *)
Definition started (fl : cli) (w : world) : world :=
  with_entry (DebugLevel, "Loading config from " +:+ ConfigFile fl)
    (with_entry (DebugLevel, "Finished loading templates")
       (with_entry (InfoLevel, "Starting  " +:+ version E) w)).

(** The rest of the run, from line 81 on. *)
Definition loaded_run (fl : cli) (globalConfig : config)
    (records : gmap addr peer) : M unit :=
  install records ;;;
  write_global fl globalConfig ;;;
  peer_pass globalConfig.

End Pipeline.

(** ** The helper [sanitize] *)

Module Sanitizer.

(** Modelled from the spec: [sanitize] is called by [main] but defined
    in a file of the repository other than main.go.  The specification
    says that sanitization "maps/strips any character not valid in the
    target identifier grammar".  The model keeps every identifier
    character and maps every other byte to an underscore. *)
Definition sanitize (input : string) : string :=
  Str.map (λ c, if Byte.is_ident c then c else "_"%char) input.

(** Modelled from the spec: the other reading of "maps/strips", in
    which a disallowed byte is dropped. *)
Definition sanitize_strip (input : string) : string :=
  Str.filter Byte.is_ident input.

End Sanitizer.

(** ** The postconditions the specification states *)

(** The per-peer artifact of a peer: the path the disabled block (line
    182) would create, named from the ASN and the sanitized name. *)
Definition peer_file (E : env) (globalConfig : config) (peerName : string)
    (p : peer) : string :=
  path_Join E (BirdDirectory globalConfig)
    ("AS" +:+ pretty (Asn p) +:+ "_" +:+ sanitize E peerName +:+ ".conf").

(** Full reconciliation: a file for each configured peer, and none for a
    peer that is no longer declared. *)
Definition full_reconciliation (E : env) (globalConfig : config)
    (records : gmap addr peer) (after : gmap string string) : Prop :=
  (∀ name a p, Peers globalConfig !! name = Some (Some a) → records !! a = Some p →
     is_Some (after !! peer_file E globalConfig name p)) ∧
  (∀ name p, Peers globalConfig !! name = None →
     (∀ name' a' p', Peers globalConfig !! name' = Some (Some a') →
        records !! a' = Some p' →
        peer_file E globalConfig name' p' ≠ peer_file E globalConfig name p) →
     after !! peer_file E globalConfig name p = None).

(** Render-failure atomicity: the target is absent or as it was. *)
Definition no_partial_artifact (before after : gmap string string)
    (target : string) : Prop :=
  after !! target = None ∨ after !! target = before !! target.

(** A session type that requires a filtering policy. *)
Definition requires_filter (p : peer) : bool :=
  bool_decide (Type_ p = "peer") || bool_decide (Type_ p = "downstream").

(** A fatal end of the run: an exit with a nonzero status. *)
Definition fatal {A} (r : outcome A) : Prop :=
  ∃ status, r = Exit status ∧ status ≠ 0.

(** Import-limit fallback against the registry answer [db]: an unset
    limit takes the registry value, a set one is kept. *)
Definition import_limit_fallback (db : peeringDbData) (p p' : peer) : Prop :=
  ImportLimit4 p' = (if ImportLimit4 p =? 0 then MaxPfx4 db else ImportLimit4 p) ∧
  ImportLimit6 p' = (if ImportLimit6 p =? 0 then MaxPfx6 db else ImportLimit6 p).

(** The last rule of AS-SET resolution against the registry answer [db]:
    with no manual AS-SET and an empty registry AS-SET, the AS-SET is
    synthesized from the ASN. *)
Definition as_set_synthesized (db : peeringDbData) (p p' : peer) : Prop :=
  AsSet p = "" → DbAsSet db = "" → AsSet p' = "AS" +:+ pretty (Asn p).

(** ** A concrete installation *)

Module Demo.

(** Shell patterns with [*] (any run of bytes other than the
    separator) and literal bytes, as [filepath.Match] treats them. *)
Fixpoint glob_match (pattern : string) : string → bool :=
  match pattern with
  | EmptyString => λ s, bool_decide (s = "")
  | String c pattern' =>
    if bool_decide (c = "*"%char) then
      fix star (s : string) : bool :=
        glob_match pattern' s ||
        match s with
        | EmptyString => false
        | String d s' => negb (bool_decide (d = "/"%char)) && star s'
        end
    else
      λ s, match s with
           | EmptyString => false
           | String d s' => bool_decide (c = d) && glob_match pattern' s'
           end
  end.

(** [path.Join] on two clean, non-empty elements. *)
Definition Join (dir file : string) : string := dir +:+ "/" +:+ file.

Definition Glob (fs : gmap string string) (pattern : string) : string + list string :=
  inr (List.filter (glob_match pattern) (map_to_list fs).*1).

Definition order (m : gmap string ptr) : { l | l ≡ₚ map_to_list m } :=
  map_to_list m ↾ Permutation_refl _.

(** An installation whose global template behaves as [render] and
    whose declaration file decodes to [loaded]. *)
Definition installation (render : string * option string)
    (loaded : config * gmap addr peer) : env :=
  {| version := "devel";
     sanitize := Sanitizer.sanitize;
     flags_ParseArgs := λ _, inl "Usage: wireframe [OPTIONS]";
     loadTemplates := None;
     loadConfig := λ _, inr loaded;
     ExecuteTemplate := λ _ _ _, render;
     path_Join := Join;
     filepath_Glob := Glob;
     os_Create_err := λ _ _, None;
     os_Remove_err := λ _ _, None;
     range_order := order |}.

Definition a_peer (ty asSet : string) (limit4 : N) : peer :=
  {| Name := ""; ProtocolName := ""; Asn := 65000; Type_ := ty;
     AsSet := asSet; ImportLimit4 := limit4; ImportLimit6 := 0;
     NoPeeringDB := false; QueryTime := "";
     PrefixSet4 := []; PrefixSet6 := []; SessionGlobal := "";
     PreImport := ""; PreExport := ""; PreImportFinal := "";
     PreExportFinal := "" |}.

Definition a_config (peers : gmap string ptr) : config :=
  {| BirdDirectory := "/etc/bird"; BirdSocket := "/run/bird/bird.ctl";
     IrrDb := "rr.ntt.net"; Peers := peers |}.

(** One peer, [foo], of type [peer], with no AS-SET and no limits. *)
Definition foo : peer := a_peer "peer" "" 0.
Definition one_peer : config * gmap addr peer :=
  (a_config {[ "foo" := Some 1%positive ]}, {[ 1%positive := foo ]}).

(** The same peer with an explicit IPv4 import limit and AS-SET. *)
Definition foo_manual : peer := a_peer "peer" "AS-FOO" 200.
Definition one_manual_peer : config * gmap addr peer :=
  (a_config {[ "foo" := Some 1%positive ]}, {[ 1%positive := foo_manual ]}).

(** A declaration with the empty string as a peer name. *)
Definition nameless_peer : config * gmap addr peer :=
  (a_config {[ "" := Some 1%positive ]}, {[ 1%positive := foo ]}).

(** A peer whose name starts with a digit. *)
Definition digit_peer : config * gmap addr peer :=
  (a_config {[ "100foo" := Some 1%positive ]}, {[ 1%positive := foo ]}).

Definition flags (dry : bool) : cli :=
  {| ConfigFile := "/etc/bcg.yml"; DryRun := dry; Verbose := false;
     ShowVersion := false; NoConfigure := false |}.

(** A disk that holds the declaration file, the global artifact of an
    earlier run and the artifact of a peer [OLD] of AS 65001 that is
    no longer declared. *)
Definition disk : gmap string string :=
  {[ "/etc/bcg.yml" := "peers: ...";
     "/etc/bird/bird.conf" := "router id 192.0.2.1;";
     "/etc/bird/AS65001_OLD.conf" := "protocol bgp OLD { }" ]}.

Definition boot : world := {| files := disk; store := ∅; journal := [] |}.

Definition ok_render : string * option string := ("router id 192.0.2.2;", None).
Definition bad_render : string * option string :=
  ("router", Some "template: global.tmpl: map has no entry for key").

(** The registry answers used in the examples. *)
Definition registry_500 : peeringDbData :=
  {| MaxPfx4 := 500; MaxPfx6 := 500; DbAsSet := "" |}.

End Demo.

(** ** The disabled block (lines 124-175)

    The enrichment from the registry and the AS-SET check are commented
    out in main.go: [run] does none of it.  The block is transcribed
    here as it is written, for one peer record, with the time stamp and
    the registry answer as inputs, so that what the executable pipeline
    omits can be stated. *)

Module Disabled.

(** [strings.Split(s, sep)] for a non-empty separator: [skip] counts the
    bytes of a separator still to be passed over, [cur] is the current
    field, reversed. *)
Fixpoint split_go (sep : string) (skip : nat) (cur : string) (s : string)
    : list string :=
  match s with
  | EmptyString => [String.rev cur]
  | String c s' =>
    match skip with
    | S k => split_go sep k cur s'
    | O =>
      if String.prefix sep s
      then String.rev cur :: split_go sep (Nat.pred (String.length sep)) EmptyString s'
      else split_go sep O (String c cur) s'
    end
  end.

Definition strings_Split (s sep : string) : list string :=
  split_go sep O EmptyString s.

(** [strings.Split(s, sep)[i]], for an index the guard
    [strings.Contains(s, sep)] makes valid. *)
Definition field (i : nat) (s sep : string) : string :=
  default EmptyString (strings_Split s sep !! i).

Definition set_QueryTime (v : string) (p : peer) : peer :=
  {| Name := Name p; ProtocolName := ProtocolName p; Asn := Asn p;
     Type_ := Type_ p; AsSet := AsSet p; ImportLimit4 := ImportLimit4 p;
     ImportLimit6 := ImportLimit6 p; NoPeeringDB := NoPeeringDB p;
     QueryTime := v; PrefixSet4 := PrefixSet4 p;
     PrefixSet6 := PrefixSet6 p; SessionGlobal := SessionGlobal p;
     PreImport := PreImport p; PreExport := PreExport p;
     PreImportFinal := PreImportFinal p; PreExportFinal := PreExportFinal p |}.

Definition set_ImportLimit4 (v : N) (p : peer) : peer :=
  {| Name := Name p; ProtocolName := ProtocolName p; Asn := Asn p;
     Type_ := Type_ p; AsSet := AsSet p; ImportLimit4 := v;
     ImportLimit6 := ImportLimit6 p; NoPeeringDB := NoPeeringDB p;
     QueryTime := QueryTime p; PrefixSet4 := PrefixSet4 p;
     PrefixSet6 := PrefixSet6 p; SessionGlobal := SessionGlobal p;
     PreImport := PreImport p; PreExport := PreExport p;
     PreImportFinal := PreImportFinal p; PreExportFinal := PreExportFinal p |}.

Definition set_ImportLimit6 (v : N) (p : peer) : peer :=
  {| Name := Name p; ProtocolName := ProtocolName p; Asn := Asn p;
     Type_ := Type_ p; AsSet := AsSet p; ImportLimit4 := ImportLimit4 p;
     ImportLimit6 := v; NoPeeringDB := NoPeeringDB p;
     QueryTime := QueryTime p; PrefixSet4 := PrefixSet4 p;
     PrefixSet6 := PrefixSet6 p; SessionGlobal := SessionGlobal p;
     PreImport := PreImport p; PreExport := PreExport p;
     PreImportFinal := PreImportFinal p; PreExportFinal := PreExportFinal p |}.

Definition set_AsSet (v : string) (p : peer) : peer :=
  {| Name := Name p; ProtocolName := ProtocolName p; Asn := Asn p;
     Type_ := Type_ p; AsSet := v; ImportLimit4 := ImportLimit4 p;
     ImportLimit6 := ImportLimit6 p; NoPeeringDB := NoPeeringDB p;
     QueryTime := QueryTime p; PrefixSet4 := PrefixSet4 p;
     PrefixSet6 := PrefixSet6 p; SessionGlobal := SessionGlobal p;
     PreImport := PreImport p; PreExport := PreExport p;
     PreImportFinal := PreImportFinal p; PreExportFinal := PreExportFinal p |}.

(** Lines 129-132 and 134-137. *)
Definition fill_limit4 (peerName : string) (db : peeringDbData) (p : peer)
    : peer * list (level * string) :=
  if ImportLimit4 p =? 0 then
    (set_ImportLimit4 (MaxPfx4 db) p,
     [(InfoLevel, "[" +:+ peerName +:+
         "] has no IPv4 import limit configured. Setting to " +:+
         pretty (MaxPfx4 db) +:+ " from PeeringDB")])
  else (p, []).

Definition fill_limit6 (peerName : string) (db : peeringDbData) (p : peer)
    : peer * list (level * string) :=
  if ImportLimit6 p =? 0 then
    (set_ImportLimit6 (MaxPfx6 db) p,
     [(InfoLevel, "[" +:+ peerName +:+
         "] has no IPv6 import limit configured. Setting to " +:+
         pretty (MaxPfx6 db) +:+ " from PeeringDB")])
  else (p, []).

(** Lines 141-145: the registry value, reduced to its first element
    when it has a space in it. *)
Definition first_element (peerName : string) (dbAsSet : string)
    : string * list (level * string) :=
  if strings_Contains dbAsSet " " then
    let first := field 0 dbAsSet " " in
    (first,
     [(WarnLevel, "[" +:+ peerName +:+
         "] has a space in their PeeringDB as-set field. Selecting first element " +:+
         first)])
  else (dbAsSet, []).

(** Lines 147-153. *)
Definition trim_prefix (peerName : string) (dbAsSet : string)
    : string * list (level * string) :=
  if strings_Contains dbAsSet "::" then
    let second := field 1 dbAsSet "::" in
    (second,
     [(WarnLevel, "[" +:+ peerName +:+
         "] has a IRRDB prefix in their PeeringDB as-set field. Using " +:+ second)])
  else (dbAsSet, []).

(** Lines 140-163. *)
Definition resolve_AsSet (peerName : string) (db : peeringDbData) (p : peer)
    : peer * list (level * string) :=
  if decide (AsSet p = "") then
    let '(dbAsSet, log1) := first_element peerName (DbAsSet db) in
    let '(asSet, log2) := trim_prefix peerName dbAsSet in
    if decide (dbAsSet = "") then
      (set_AsSet ("AS" +:+ pretty (Asn p)) p,
       log1 ++ log2 ++
       [(WarnLevel, "[" +:+ peerName +:+
           "] has no as-set in PeeringDB, falling back to their ASN (" +:+
           pretty (Asn p) +:+ ")")])
    else
      (set_AsSet asSet p,
       log1 ++ log2 ++
       [(InfoLevel, "[" +:+ peerName +:+
           "] has no manual AS-SET defined. Setting to " +:+ dbAsSet +:+
           " from PeeringDB")])
  else
    (p, [(InfoLevel, "[" +:+ peerName +:+ "] has manual AS-SET: " +:+ AsSet p)]).

(** Lines 124-170, with [now] the formatted time and [db] the answer of
    [getPeeringDbData(peerData.Asn)]. *)
Definition enrich (now : string) (db : peeringDbData) (peerName : string)
    (p : peer) : peer * list (level * string) :=
  if NoPeeringDB p then (p, [])
  else
    let p0 := set_QueryTime now p in
    let '(p1, log1) := fill_limit4 peerName db p0 in
    let '(p2, log2) := fill_limit6 peerName db p1 in
    let '(p3, log3) := resolve_AsSet peerName db p2 in
    (p3, log1 ++ log2 ++ log3).

(** The test of lines 172-175, which ends the run with [log.Fatalf]. *)
Definition missing_AsSet (p : peer) : bool :=
  bool_decide (AsSet p = "") && requires_filter p.

End Disabled.

(** ** [printPeerInfo] (lines 24-36) *)

(** The fields excluded from the print output (line 27). *)
Definition excludedFields : list string :=
  ["PrefixSet4"; "PrefixSet6"; "Name"; "SessionGlobal"; "PreImport";
   "PreExport"; "PreImportFinal"; "PreExportFinal"; "QueryTime"].

Section PrintPeerInfo.

(** [contains], from the repository's helpers. *)
Variable contains : list string → string → bool.

(** What reflection shows of a peer record: for each field of the
    struct, in the order of declaration, its name
    ([typeOf.Field(i).Name]) and its value as [%v] prints it
    ([s.Field(i).Interface()]). *)
Variable reflect_fields : peer → list (string * string).

(** The line logged for an attribute. *)
Definition attribute_line (peerName : string) (field : string * string)
    : level * string :=
  (InfoLevel,
   "[" +:+ peerName +:+ "] attribute " +:+ field.1 +:+ " = " +:+ field.2).

(** The loop body, for the field [field]. *)
Definition print_attribute (peerName : string) (field : string * string) : M unit :=
  if negb (contains excludedFields field.1)
  then λ w, (Done tt, with_entry (attribute_line peerName field) w)
  else ret tt.

(** [reflect.ValueOf(peerData).Elem()] of a nil pointer is the zero
    value, on which [Type()] panics. *)
Definition printPeerInfo (peerName : string) (peerData : ptr) : M unit :=
  λ w, match deref peerData w with
       | Some p => for_each (reflect_fields p) (print_attribute peerName) w
       | None => (Panic, w)
       end.

End PrintPeerInfo.

(** ** Notions used to state what the run does *)

(** A computation that exits does so with status 1, the last line of
    the journal being the fatal message. *)
Definition exits_loudly {A} (m : M A) : Prop :=
  ∀ w s, result m w = Exit s →
         s = 1 ∧ ∃ msg, last (journal (exec m w)) = Some (FatalLevel, msg).

(** The file system once the files of [old] are removed, in order. *)
Definition removed (old : list string) (fs : gmap string string)
    : gmap string string :=
  foldl (λ fs f, delete f fs) fs old.

(** The same flags, for a dry run. *)
Definition dry (fl : cli) : cli :=
  {| ConfigFile := ConfigFile fl; DryRun := true; Verbose := Verbose fl;
     ShowVersion := ShowVersion fl; NoConfigure := NoConfigure fl |}.

(** A peer table entry that the loop body can process: the name is not
    empty and the pointer leads to a record. *)
Definition processable (w : world) (name : string) (peerData : ptr) : Prop :=
  name ≠ "" ∧ ∃ a, peerData = Some a ∧ is_Some (store w !! a).

(** The world when the global template has been executed without error:
    the artifact holds its output and the four lines of lines 83-96 are
    in the journal. *)
Definition rendered (g out : string) (w : world) : world :=
  with_entry (DebugLevel, "Finished writing global config file")
    (with_files (<[g := out]> (files w))
       (with_entry (DebugLevel, "Writing global config file")
          (with_entry (DebugLevel, "Finished creating global config file")
             (with_entry (DebugLevel, "Creating global config") w)))).

(** Lines 98-107: the cleanup of old peer files. *)
Definition clean_old (E : env) (globalConfig : config) : M unit :=
  let* g := Glob E (path_Join E (BirdSocket globalConfig) "AS*.conf") in
  match g with
  | inl e => log_Fatal e
  | inr old => for_each old (remove_old E)
  end.

(** No record was added to the store. *)
Definition no_new_record : relation world := λ w w',
  ∀ a, is_Some (store w' !! a) → is_Some (store w !! a).

(** The line the loop body logs for an entry of the peer table, with
    the ASN read from the store [h]. *)
Definition entry_line (h : gmap addr peer) (entry : string * ptr) : level * string :=
  checking_line entry.1 (from_option Asn 0 (entry.2 ≫= (h !!.))).

(** More of the concrete installation. *)
Module Demo2.

(** The flags of a run whose declaration file does not exist. *)
Definition lost_flags : cli :=
  {| ConfigFile := "/etc/missing.yml"; DryRun := false; Verbose := false;
     ShowVersion := false; NoConfigure := false |}.

(** An installation like [Demo.installation], with [glob] for
    [filepath.Glob] and the system refusing to remove the paths
    [refused] holds. *)
Definition installation (loaded : config * gmap addr peer)
    (glob : gmap string string → string → string + list string)
    (refused : string → bool) : env :=
  {| version := "devel";
     sanitize := Sanitizer.sanitize;
     flags_ParseArgs := λ args,
       match args with
       | [_; "--dry-run"] => inr (Demo.flags true)
       | [_] => inr (Demo.flags false)
       | _ => inl "Usage: wireframe [OPTIONS]"
       end;
     loadTemplates := None;
     loadConfig := λ _, inr loaded;
     ExecuteTemplate := λ _ _ _, Demo.ok_render;
     path_Join := Demo.Join;
     filepath_Glob := glob;
     os_Create_err := λ _ _, None;
     os_Remove_err := λ _ f,
       if refused f then Some "remove: permission denied" else None;
     range_order := Demo.order |}.

(** An installation in which [os.Create] is refused. *)
Definition read_only (loaded : config * gmap addr peer) : env :=
  {| version := "devel";
     sanitize := Sanitizer.sanitize;
     flags_ParseArgs := λ _, inl "unknown flag";
     loadTemplates := None;
     loadConfig := λ _, inr loaded;
     ExecuteTemplate := λ _ _ _, Demo.ok_render;
     path_Join := Demo.Join;
     filepath_Glob := Demo.Glob;
     os_Create_err := λ _ _, Some "open: read-only file system";
     os_Remove_err := λ _ _, None;
     range_order := Demo.order |}.

(** A configuration whose [BirdSocket] is the output directory. *)
Definition socket_in_directory : config * gmap addr peer :=
  ({| BirdDirectory := "/etc/bird"; BirdSocket := "/etc/bird";
      IrrDb := "rr.ntt.net"; Peers := {[ "foo" := Some 1%positive ]} |},
   {[ 1%positive := Demo.foo ]}).

Definition stale : string := "/etc/bird/AS65001_OLD.conf".

(** Two names for one record, and a record no name points to. *)
Definition two_names : config * gmap addr peer :=
  (Demo.a_config {[ "7up" := Some 1%positive; "cola" := Some 1%positive ]},
   {[ 1%positive := Demo.foo; 2%positive := Demo.foo_manual ]}).

(** A table with a nil entry. *)
Definition nil_entry : config * gmap addr peer :=
  (Demo.a_config {[ "foo" := None ]}, {[ 1%positive := Demo.foo ]}).

(** [contains] as a linear search, and a reflective view that shows
    three of the fields. *)
Definition contains (a : list string) (x : string) : bool :=
  bool_decide (x ∈ a).

Definition three_fields (p : peer) : list (string * string) :=
  [("Name", Name p); ("Asn", pretty (Asn p)); ("AsSet", AsSet p)].

End Demo2.

(** * Properties *)

(** ** Running a sequence *)

Lemma result_bind {A B} (m : M A) (k : A → M B) (w : world) :
  result (bind m k) w =
  match result m w with
  | Done a => result (k a) (exec m w)
  | Exit s => Exit s
  | Panic => Panic
  end.
Proof. unfold result, exec, bind. by destruct (m w) as [[a|s|] w']. Qed.

Lemma exec_bind {A B} (m : M A) (k : A → M B) (w : world) :
  exec (bind m k) w =
  match result m w with
  | Done a => exec (k a) (exec m w)
  | _ => exec m w
  end.
Proof. unfold result, exec, bind. by destruct (m w) as [[a|s|] w']. Qed.

Lemma result_bind_Done {A B} (m : M A) (k : A → M B) (w : world) (b : B) :
  result (bind m k) w = Done b →
  ∃ a, result m w = Done a ∧ result (k a) (exec m w) = Done b.
Proof. rewrite result_bind. destruct (result m w); naive_solver. Qed.

(** ** Frames *)

Section Frames.

Variable R : relation world.
Context `{!PreOrder R}.

Lemma keeps_ret {A} (a : A) : keeps R (ret a).
Proof. intros w. reflexivity. Qed.

Lemma keeps_panic {A} : keeps R (@panic A).
Proof. intros w. reflexivity. Qed.

Lemma keeps_os_Exit {A} (s : N) : keeps R (@os_Exit A s).
Proof. intros w. reflexivity. Qed.

Lemma keeps_bind {A B} (m : M A) (k : A → M B) :
  keeps R m → (∀ a, keeps R (k a)) → keeps R (bind m k).
Proof.
  intros Hm Hk w. rewrite exec_bind.
  destruct (result m w) as [a|s|]; [|apply Hm..].
  etrans; [apply Hm|apply Hk].
Qed.

Lemma keeps_for_each {A} (xs : list A) (body : A → M unit) :
  (∀ x, x ∈ xs → keeps R (body x)) → keeps R (for_each xs body).
Proof.
  induction xs as [|x xs IH]; intros Hbody; simpl.
  - apply keeps_ret.
  - apply keeps_bind; [apply Hbody; left|].
    intros _. apply IH. intros y Hy. apply Hbody. by right.
Qed.

(** A loop that returns has run its body on every element, in a world
    reached from the start, and the end is reached from there. *)
Lemma for_each_visits {A} (xs : list A) (body : A → M unit) (x : A) (w : world) :
  (∀ y, keeps R (body y)) →
  x ∈ xs → result (for_each xs body) w = Done tt →
  ∃ w1, R w w1 ∧ result (body x) w1 = Done tt ∧
        R (exec (body x) w1) (exec (for_each xs body) w).
Proof.
  intros Hbody. revert w.
  induction xs as [|y xs IH]; intros w Hx Hdone; [by apply elem_of_nil in Hx|].
  simpl in Hdone. apply result_bind_Done in Hdone as ([] & Hy & Hrest).
  simpl. rewrite exec_bind, Hy.
  apply elem_of_cons in Hx as [->|Hx].
  - exists w. split; [reflexivity|]. split; [done|].
    by apply keeps_for_each.
  - destruct (IH _ Hx Hrest) as (w1 & Hw1 & Hb & Hend).
    exists w1. split; [|done]. etrans; [apply Hbody|done].
Qed.

(** A loop whose body returns in every world reached from the start
    returns. *)
Lemma for_each_returns {A} (xs : list A) (body : A → M unit) (w : world) :
  (∀ y, keeps R (body y)) →
  (∀ y w1, y ∈ xs → R w w1 → result (body y) w1 = Done tt) →
  result (for_each xs body) w = Done tt.
Proof.
  intros Hbody. revert w.
  induction xs as [|y xs IH]; intros w Hret; [done|].
  simpl. rewrite result_bind, Hret; [|by left|reflexivity].
  apply IH. intros z w1 Hz Hw1. apply Hret; [by right|].
  etrans; [apply Hbody|done].
Qed.

End Frames.

(** A loop whose body never exits and panics on one of the elements
    panics. *)
Lemma for_each_panics {A} (xs : list A) (body : A → M unit) (x : A) (w : world) :
  (∀ y w1, result (body y) w1 = Done tt ∨ result (body y) w1 = Panic) →
  (∀ w1, result (body x) w1 = Panic) →
  x ∈ xs → result (for_each xs body) w = Panic.
Proof.
  intros Hbody Hx. revert w.
  induction xs as [|y xs IH]; intros w Hin; [by apply elem_of_nil in Hin|].
  simpl. rewrite result_bind.
  apply elem_of_cons in Hin as [<-|Hin]; [by rewrite Hx|].
  destruct (Hbody y w) as [-> | ->]; [by apply IH|done].
Qed.

Lemma same_but_ProtocolName_refl (p : peer) : same_but_ProtocolName p p.
Proof. by destruct p. Qed.

Lemma same_but_ProtocolName_trans (p q r : peer) :
  same_but_ProtocolName p q → same_but_ProtocolName q r →
  same_but_ProtocolName p r.
Proof. unfold same_but_ProtocolName. intros -> ->. by destruct p. Qed.

Lemma same_but_ProtocolName_set (v : string) (p : peer) :
  same_but_ProtocolName p (set_ProtocolName v p).
Proof. by destruct p. Qed.

Global Instance same_files_po : PreOrder same_files.
Proof. split; unfold same_files; [done|]. intros x y z. congruence. Qed.

Global Instance same_store_po : PreOrder same_store.
Proof. split; unfold same_store; [done|]. intros x y z. congruence. Qed.

Global Instance records_kept_po : PreOrder records_kept.
Proof.
  split.
  - intros w a p Hp. eauto using same_but_ProtocolName_refl.
  - intros x y z Hxy Hyz a p Hp.
    destruct (Hxy a p Hp) as (q & Hq & Hpq).
    destruct (Hyz a q Hq) as (r & Hr & Hqr).
    eauto using same_but_ProtocolName_trans.
Qed.

Global Instance journal_grows_po : PreOrder journal_grows.
Proof.
  split; [by intros w e|].
  intros x y z Hxy Hyz e He. by apply Hyz, Hxy.
Qed.

Global Instance no_new_warning_po : PreOrder no_new_warning.
Proof.
  split; [by intros w e; left|].
  intros x y z Hxy Hyz e He. destruct (Hyz e He); [by apply Hxy|by right].
Qed.

Global Instance writes_only_po (g : string) : PreOrder (writes_only g).
Proof.
  split; [by intros w path; right|].
  intros x y z Hxy Hyz path Hpath.
  destruct (Hyz path Hpath) as [?| ->]; [by left|]. by apply Hxy.
Qed.

Lemma keeps_weaken {A} (R R' : relation world) (m : M A) :
  (∀ w w', R w w' → R' w w') → keeps R m → keeps R' m.
Proof. intros HR Hm w. apply HR, Hm. Qed.

Lemma same_files_writes_only (g : string) (w w' : world) :
  same_files w w' → writes_only g w w'.
Proof. intros Hf path _. right. by rewrite Hf. Qed.

Lemma same_store_records_kept (w w' : world) :
  same_store w w' → records_kept w w'.
Proof.
  intros Hs a p Hp. exists p. rewrite Hs.
  eauto using same_but_ProtocolName_refl.
Qed.

Global Instance both_po (R1 R2 : relation world) :
  PreOrder R1 → PreOrder R2 → PreOrder (both R1 R2).
Proof.
  intros H1 H2. split.
  - intros w. split; reflexivity.
  - intros x y z [] []. split; etrans; eauto.
Qed.

Lemma keeps_both {A} (R1 R2 : relation world) (m : M A) :
  keeps R1 m → keeps R2 m → keeps (both R1 R2) m.
Proof. intros H1 H2 w. split; [apply H1|apply H2]. Qed.

(** *** Logging *)

Lemma logf_same_files lv msg : keeps same_files (logf lv msg).
Proof. by intros w. Qed.

Lemma logf_same_store lv msg : keeps same_store (logf lv msg).
Proof. by intros w. Qed.

Lemma logf_journal_grows lv msg : keeps journal_grows (logf lv msg).
Proof. intros w e He. simpl. apply elem_of_app. by left. Qed.

Lemma logf_no_new_warning lv msg :
  lv ≠ WarnLevel → keeps no_new_warning (logf lv msg).
Proof.
  intros Hlv w e [He|He%list_elem_of_singleton]%elem_of_app; [by left|].
  right. by subst e.
Qed.

Lemma log_Fatal_same_files {A} msg : keeps same_files (@log_Fatal A msg).
Proof. by intros w. Qed.

Lemma log_Fatal_same_store {A} msg : keeps same_store (@log_Fatal A msg).
Proof. by intros w. Qed.

Lemma log_Fatal_no_new_warning {A} msg : keeps no_new_warning (@log_Fatal A msg).
Proof.
  intros w e [He|He%list_elem_of_singleton]%elem_of_app; [by left|].
  right. by subst e.
Qed.

(** *** The per-peer pass *)

Section PeerPass.

Variable E : env.

(** What the loop body does to a peer whose name is not empty and
    whose pointer leads to a record. *)
Lemma check_peer_run name a p v w :
  normalize (sanitize E) name = Some v → store w !! a = Some p →
  check_peer E (name, Some a) w =
  (Done tt,
   with_entry (checking_line name (Asn p))
     (with_store (<[a := set_ProtocolName v p]> (store w)) w)).
Proof.
  intros Hv Hp.
  unfold check_peer, bind, assign_ProtocolName, read_Asn, deref.
  rewrite Hv, Hp. simpl. by rewrite lookup_insert_eq.
Qed.

(** In every other case the loop body panics. *)
Lemma check_peer_cases name peerData w :
  (∃ v a p, normalize (sanitize E) name = Some v ∧ peerData = Some a ∧
            store w !! a = Some p) ∨
  check_peer E (name, peerData) w = (Panic, w).
Proof.
  destruct (normalize (sanitize E) name) as [v|] eqn:Hv.
  - destruct peerData as [a|].
    + destruct (store w !! a) as [p|] eqn:Hp; [left; by exists v, a, p|].
      right. unfold check_peer, bind, assign_ProtocolName.
      by rewrite Hv, Hp.
    + right. unfold check_peer, bind, assign_ProtocolName. by rewrite Hv.
  - right. unfold check_peer. by rewrite Hv.
Qed.

(** The loop body returns only for a non-empty name and a pointer that
    leads to a record. *)
Lemma check_peer_Done name peerData w :
  result (check_peer E (name, peerData)) w = Done tt →
  ∃ v a p, normalize (sanitize E) name = Some v ∧ peerData = Some a ∧
           store w !! a = Some p.
Proof.
  destruct (check_peer_cases name peerData w) as [?|Hpanic]; [done|].
  unfold result. by rewrite Hpanic.
Qed.

Lemma check_peer_never_exits entry w :
  result (check_peer E entry) w = Done tt ∨ result (check_peer E entry) w = Panic.
Proof.
  destruct entry as [name peerData]. unfold result.
  destruct (check_peer_cases name peerData w)
    as [(v & a & p & Hv & -> & Hp)|Hpanic].
  - left. by rewrite (check_peer_run _ _ _ _ _ Hv Hp).
  - right. by rewrite Hpanic.
Qed.

(** The frames of the loop body follow from the two cases. *)
Lemma check_peer_frame (R : relation world) `{!PreOrder R} :
  (∀ name a p v w, store w !! a = Some p →
     R w (with_entry (checking_line name (Asn p))
            (with_store (<[a := set_ProtocolName v p]> (store w)) w))) →
  ∀ entry, keeps R (check_peer E entry).
Proof.
  intros HR [name peerData] w. unfold exec.
  destruct (check_peer_cases name peerData w)
    as [(v & a & p & Hv & -> & Hp)|Hpanic].
  - rewrite (check_peer_run _ _ _ _ _ Hv Hp). by apply HR.
  - rewrite Hpanic. reflexivity.
Qed.

Lemma check_peer_same_files entry : keeps same_files (check_peer E entry).
Proof. by apply check_peer_frame; [apply _|]. Qed.

Lemma check_peer_journal_grows entry : keeps journal_grows (check_peer E entry).
Proof.
  apply check_peer_frame; [apply _|]. intros name a p v w _ e He.
  simpl. apply elem_of_app. by left.
Qed.

Lemma check_peer_no_new_warning entry : keeps no_new_warning (check_peer E entry).
Proof.
  apply check_peer_frame; [apply _|]. intros name a p v w _ e.
  simpl. intros [He|He%list_elem_of_singleton]%elem_of_app; [by left|].
  right. by subst e.
Qed.

Lemma check_peer_records_kept entry : keeps records_kept (check_peer E entry).
Proof.
  apply check_peer_frame; [apply _|]. intros name a p v w Hp b q Hq.
  simpl. destruct (decide (a = b)) as [->|Hne].
  - rewrite lookup_insert_eq. exists (set_ProtocolName v p).
    split; [done|]. rewrite Hp in Hq. injection Hq as <-.
    apply same_but_ProtocolName_set.
  - rewrite lookup_insert_ne by done.
    eauto using same_but_ProtocolName_refl.
Qed.

Lemma peer_pass_same_files cfg : keeps same_files (peer_pass E cfg).
Proof. apply keeps_for_each; [apply _|]. intros. apply check_peer_same_files. Qed.

Lemma peer_pass_records_kept cfg : keeps records_kept (peer_pass E cfg).
Proof. apply keeps_for_each; [apply _|]. intros. apply check_peer_records_kept. Qed.

Lemma peer_pass_journal_grows cfg : keeps journal_grows (peer_pass E cfg).
Proof. apply keeps_for_each; [apply _|]. intros. apply check_peer_journal_grows. Qed.

Lemma peer_pass_no_new_warning cfg : keeps no_new_warning (peer_pass E cfg).
Proof. apply keeps_for_each; [apply _|]. intros. apply check_peer_no_new_warning. Qed.

(** Every entry of the peer table is enumerated. *)
Lemma range_order_elem (m : gmap string ptr) name peerData :
  m !! name = Some peerData → (name, peerData) ∈ proj1_sig (range_order E m).
Proof.
  intros Hm. destruct (range_order E m) as [l Hl]. simpl.
  rewrite Hl. by apply elem_of_map_to_list.
Qed.

Lemma range_order_lookup (m : gmap string ptr) name peerData :
  (name, peerData) ∈ proj1_sig (range_order E m) → m !! name = Some peerData.
Proof.
  destruct (range_order E m) as [l Hl]. simpl.
  rewrite Hl. by intros ?%elem_of_map_to_list.
Qed.

End PeerPass.

(** *** The global artifact and the cleanup *)

Section GlobalPhase.

Variable E : env.

Lemma remove_old_same_store f : keeps same_store (remove_old E f).
Proof.
  intros w. unfold exec, remove_old, bind, os_Remove.
  by destruct (os_Remove_err E (files w) f).
Qed.

Lemma remove_old_no_new_warning f : keeps no_new_warning (remove_old E f).
Proof.
  intros w e. unfold exec, remove_old, bind, os_Remove.
  destruct (os_Remove_err E (files w) f); [|by left].
  apply (log_Fatal_no_new_warning (A := unit)).
Qed.

(** Removing a file creates none and writes none. *)
Lemma remove_old_writes_only g f : keeps (writes_only g) (remove_old E f).
Proof.
  intros w path _. unfold exec, remove_old, bind, os_Remove.
  destruct (os_Remove_err E (files w) f); simpl; [by right|].
  destruct (decide (f = path)) as [->|Hne].
  - left. apply lookup_delete_eq.
  - right. by apply lookup_delete_ne.
Qed.

Lemma render_and_clean_frame (R : relation world) `{!PreOrder R} f cfg :
  (∀ w out, R w (with_files (alter (λ old, old +:+ out) f (files w)) w)) →
  (∀ lv msg, lv ≠ WarnLevel → keeps R (logf lv msg)) →
  (∀ msg, keeps R (@log_Fatal unit msg)) →
  (∀ g, keeps R (remove_old E g)) →
  keeps R (render_and_clean E f cfg).
Proof.
  intros Hwrite Hlog Hfatal Hremove. unfold render_and_clean.
  apply keeps_bind; [apply _| |intros [e|]].
  - intros w. unfold exec, globalTemplate_ExecuteTemplate.
    destruct (ExecuteTemplate E _ _ _) as [out err]. apply Hwrite.
  - apply Hfatal.
  - apply keeps_bind; [apply _|by apply Hlog|intros _].
    apply keeps_bind; [apply _|intros w; reflexivity|intros [e|old]].
    + apply Hfatal.
    + apply keeps_for_each; [apply _|]. intros g _. apply Hremove.
Qed.

Lemma write_global_frame (R : relation world) `{!PreOrder R} fl cfg :
  (∀ w, R w (with_files (<[global_path E cfg := ""]> (files w)) w)) →
  (∀ w out, R w (with_files
                   (alter (λ old, old +:+ out) (global_path E cfg) (files w)) w)) →
  (∀ lv msg, lv ≠ WarnLevel → keeps R (logf lv msg)) →
  (∀ msg, keeps R (@log_Fatal unit msg)) →
  (∀ g, keeps R (remove_old E g)) →
  keeps R (write_global E fl cfg).
Proof.
  intros Hcreate Hwrite Hlog Hfatal Hremove. unfold write_global.
  destruct (negb (DryRun fl)); [|by apply Hlog].
  apply keeps_bind; [apply _|by apply Hlog|intros _].
  intros w. rewrite exec_bind.
  unfold result at 1, exec at 2 3, os_Create.
  destruct (os_Create_err E (files w) (global_path E cfg)) as [err|]; simpl.
  - apply Hfatal.
  - etrans; [apply Hcreate|].
    apply keeps_bind; [apply _|by apply Hlog|intros _].
    apply keeps_bind; [apply _|by apply Hlog|intros _].
    by apply render_and_clean_frame.
Qed.

Lemma write_global_same_store fl cfg : keeps same_store (write_global E fl cfg).
Proof.
  apply write_global_frame; [apply _|done|done|..].
  - intros. apply logf_same_store.
  - intros. apply log_Fatal_same_store.
  - apply remove_old_same_store.
Qed.

Lemma write_global_no_new_warning fl cfg :
  keeps no_new_warning (write_global E fl cfg).
Proof.
  apply write_global_frame; [apply _|by left|by left|..].
  - intros. by apply logf_no_new_warning.
  - intros. apply log_Fatal_no_new_warning.
  - apply remove_old_no_new_warning.
Qed.

Lemma write_global_writes_only fl cfg :
  keeps (writes_only (global_path E cfg)) (write_global E fl cfg).
Proof.
  apply write_global_frame; [apply _|..].
  - intros w path Hpath. right. simpl. by apply lookup_insert_ne.
  - intros w out path Hpath. right. simpl. by apply lookup_alter_ne.
  - intros lv msg _ w. by apply same_files_writes_only.
  - intros msg w. by apply same_files_writes_only.
  - apply remove_old_writes_only.
Qed.

Lemma write_global_dry fl cfg :
  DryRun fl = true → keeps same_files (write_global E fl cfg).
Proof.
  intros Hdry. unfold write_global. rewrite Hdry. apply logf_same_files.
Qed.

End GlobalPhase.

(** *** The whole run *)

Section Run.

Variable E : env.

(** A run that loads its configuration is the start-up lines followed
    by the three phases. *)
Lemma run_loads fl w cfg records :
  loads E fl w cfg records →
  run E fl w = loaded_run E fl cfg records (started E fl w).
Proof.
  intros (Hver & Htpl & configFile & Hfile & Hload).
  unfold run, loaded_run. rewrite Hver, Htpl.
  unfold bind at 1. simpl. unfold bind at 1. simpl.
  unfold bind at 1. simpl. unfold bind at 1, ioutil_ReadFile at 1. simpl.
  by rewrite Hfile, Hload.
Qed.

Lemma install_run records w :
  install records w = (Done tt, with_store records w).
Proof. reflexivity. Qed.

(** [main] is the run on the parsed flags. *)
Lemma main_parsed args fl :
  flags_ParseArgs E args = inr fl → main E args = run E fl.
Proof. intros Hparse. unfold main. by rewrite Hparse. Qed.

Lemma install_bind_run {A} records (k : M A) w :
  (install records ;;; k) w = k (with_store records w).
Proof. reflexivity. Qed.

Lemma loaded_run_exec fl cfg records w :
  exec (loaded_run E fl cfg records) w =
  exec (write_global E fl cfg ;;; peer_pass E cfg) (with_store records w).
Proof. reflexivity. Qed.

Lemma loaded_run_result fl cfg records w :
  result (loaded_run E fl cfg records) w =
  result (write_global E fl cfg ;;; peer_pass E cfg) (with_store records w).
Proof. reflexivity. Qed.

Lemma phases_frame (R : relation world) `{!PreOrder R} fl cfg :
  keeps R (write_global E fl cfg) → keeps R (peer_pass E cfg) →
  keeps R (write_global E fl cfg ;;; peer_pass E cfg).
Proof. intros Hg Hp. by apply keeps_bind; [apply _| |intros _]. Qed.

(** The run keeps a frame that start-up, [install], fatal exits and
    the two phases keep. *)
Lemma run_frame (R : relation world) `{!PreOrder R} fl :
  (∀ lv msg, lv ≠ WarnLevel → keeps R (logf lv msg)) →
  (∀ msg, keeps R (@log_Fatal unit msg)) →
  (∀ records, keeps R (install records)) →
  (∀ cfg, keeps R (write_global E fl cfg)) →
  (∀ cfg, keeps R (peer_pass E cfg)) →
  keeps R (run E fl).
Proof.
  intros Hlog Hfatal Hinstall Hglobal Hpass. unfold run.
  destruct (ShowVersion fl).
  { apply keeps_bind; [apply _|by apply Hlog|intros _].
    apply keeps_os_Exit, _. }
  apply keeps_bind; [apply _|by apply Hlog|intros _].
  destruct (loadTemplates E); [apply Hfatal|].
  apply keeps_bind; [apply _|by apply Hlog|intros _].
  apply keeps_bind; [apply _|by apply Hlog|intros _].
  apply keeps_bind; [apply _| |intros [err|configFile]].
  - intros w. unfold exec, ioutil_ReadFile.
    destruct (files w !! ConfigFile fl); reflexivity.
  - apply Hfatal.
  - destruct (loadConfig E configFile) as [err|[cfg records]]; [apply Hfatal|].
    apply keeps_bind; [apply _|apply Hinstall|intros _].
    by apply phases_frame.
Qed.

Lemma run_no_new_warning fl : keeps no_new_warning (run E fl).
Proof.
  apply run_frame; [apply _|..].
  - intros. by apply logf_no_new_warning.
  - intros. apply log_Fatal_no_new_warning.
  - intros records w e He. by left.
  - intros. apply write_global_no_new_warning.
  - intros. apply peer_pass_no_new_warning.
Qed.

Lemma run_dry_same_files fl :
  DryRun fl = true → keeps same_files (run E fl).
Proof.
  intros Hdry. apply run_frame; [apply _|..].
  - intros. apply logf_same_files.
  - intros. apply log_Fatal_same_files.
  - by intros records w.
  - intros. by apply write_global_dry.
  - intros. apply peer_pass_same_files.
Qed.

(** After a configuration is loaded, its records stay in the store and
    change at most in [ProtocolName]. *)
Lemma loaded_run_records_kept fl cfg records w :
  records_kept (with_store records w) (exec (loaded_run E fl cfg records) w).
Proof.
  rewrite loaded_run_exec. apply phases_frame; [apply _|..].
  - eapply keeps_weaken; [apply same_store_records_kept|].
    apply write_global_same_store.
  - apply peer_pass_records_kept.
Qed.

Lemma loaded_run_writes_only fl cfg records w :
  writes_only (global_path E cfg) w (exec (loaded_run E fl cfg records) w).
Proof.
  rewrite loaded_run_exec.
  change (writes_only (global_path E cfg) (with_store records w)
            (exec (write_global E fl cfg;;; peer_pass E cfg) (with_store records w))).
  apply phases_frame; [apply _|..].
  - apply write_global_writes_only.
  - eapply keeps_weaken; [apply same_files_writes_only|].
    apply peer_pass_same_files.
Qed.

End Run.

(** ** The sanitizer *)

Lemma forallb_map (f : ascii → ascii) (p : ascii → bool) (s : string) :
  (∀ c, p (f c) = true) → Str.forallb p (Str.map f s) = true.
Proof.
  intros Hp. induction s as [|c s IH]; simpl; [done|].
  by rewrite Hp, IH.
Qed.

Lemma map_fixed (f : ascii → ascii) (p : ascii → bool) (s : string) :
  (∀ c, p c = true → f c = c) →
  Str.forallb p s = true → Str.map f s = s.
Proof.
  intros Hf. induction s as [|c s IH]; simpl; [done|].
  intros [Hc Hs]%andb_true_iff. by rewrite (Hf c Hc), IH.
Qed.

Lemma sanitize_ident (s : string) :
  Str.forallb Byte.is_ident (Sanitizer.sanitize s) = true.
Proof.
  apply forallb_map. intros c.
  by destruct (Byte.is_ident c) eqn:Hc.
Qed.

Lemma sanitize_fixed (s : string) :
  Str.forallb Byte.is_ident s = true → Sanitizer.sanitize s = s.
Proof. apply map_fixed. intros c Hc. by rewrite Hc. Qed.

Lemma sanitize_idempotent (s : string) :
  Sanitizer.sanitize (Sanitizer.sanitize s) = Sanitizer.sanitize s.
Proof. apply sanitize_fixed, sanitize_ident. Qed.

(** A digit is an identifier character, so sanitizing keeps it; and a
    byte that is not a digit is not turned into one. *)
Lemma sanitize_first_digit (c : ascii) :
  Byte.IsDigit (if Byte.is_ident c then c else "_"%char) = Byte.IsDigit c.
Proof.
  destruct (Byte.is_ident c) eqn:Hc; [done|].
  unfold Byte.is_ident in Hc.
  destruct (Byte.IsDigit c); [|done].
  by rewrite orb_true_r in Hc.
Qed.

Lemma normalize_nonempty (san : string → string) (name : string) :
  name ≠ "" → is_Some (normalize san name).
Proof.
  destruct name as [|c rest]; [done|]. intros _.
  unfold normalize. simpl. destruct (Byte.IsDigit c); eauto.
Qed.

Lemma normalize_empty (san : string → string) : normalize san "" = None.
Proof. reflexivity. Qed.

Lemma normalize_digit (san : string → string) (name : string) :
  begins_with_digit name = true →
  normalize san name = Some ("PEER_" +:+ san name).
Proof.
  destruct name as [|c rest]; [done|]. simpl. intros Hc.
  unfold normalize. simpl. by rewrite Hc.
Qed.

(** With the modelled [sanitize], whatever [normalize] returns is an
    identifier. *)
Lemma normalize_valid (name v : string) :
  normalize Sanitizer.sanitize name = Some v → valid_identifier v = true.
Proof.
  destruct name as [|c rest]; [done|].
  unfold normalize. simpl. destruct (Byte.IsDigit c) eqn:Hc; intros [= <-].
  - change (Str.forallb Byte.is_ident
              ("PEER_" +:+ Sanitizer.sanitize (String c rest)) = true).
    pose proof (sanitize_ident (String c rest)) as Hs.
    simpl in *. by rewrite Hs.
  - pose proof (sanitize_ident (String c rest)) as Hs.
    simpl in *. by rewrite sanitize_first_digit, Hc, Hs.
Qed.

Lemma valid_identifier_fixed (v : string) :
  valid_identifier v = true → normalize Sanitizer.sanitize v = Some v.
Proof.
  destruct v as [|c rest]; [done|]. simpl.
  intros [Hc Hs]%andb_true_iff. apply negb_true_iff in Hc.
  unfold normalize. simpl. rewrite Hc.
  f_equal. by apply sanitize_fixed.
Qed.

Lemma valid_identifier_no_digit (v : string) :
  valid_identifier v = true → begins_with_digit v = false.
Proof.
  destruct v as [|c rest]; [done|]. simpl.
  by intros [Hc%negb_true_iff _]%andb_true_iff.
Qed.

(** C7: a declared name whose first character is a digit gets the
    literal prefix [PEER_] before its sanitized form, whatever
    [sanitize] is; with the modelled [sanitize], ["100foo"] becomes
    ["PEER_100foo"] and the [ProtocolName] of every declared name is an
    identifier that does not begin with a digit; and that value is what
    the per-peer pass stores in the peer's record. *)
Theorem ProtocolName_prefix_and_validity :
  (∀ (E : env) (name : string),
     begins_with_digit name = true →
     normalize (sanitize E) name = Some ("PEER_" +:+ sanitize E name)) ∧
  normalize Sanitizer.sanitize "100foo" = Some "PEER_100foo" ∧
  (∀ name : string,
     name ≠ "" →
     ∃ v, normalize Sanitizer.sanitize name = Some v ∧
          valid_identifier v = true ∧ begins_with_digit v = false) ∧
  (∀ (E : env) (name : string) (a : addr) (p : peer) (w : world),
     name ≠ "" → store w !! a = Some p →
     ∃ v, normalize (sanitize E) name = Some v ∧
          store (exec (check_peer E (name, Some a)) w) !! a =
          Some (set_ProtocolName v p)).
Proof.
  split; [intros E name; apply normalize_digit|].
  split; [reflexivity|]. split.
  - intros name [v Hv]%(normalize_nonempty Sanitizer.sanitize).
    exists v. split; [done|].
    pose proof (normalize_valid _ _ Hv).
    auto using valid_identifier_no_digit.
  - intros E name a p w [v Hv]%(normalize_nonempty (sanitize E)) Hp.
    exists v. split; [done|]. unfold exec.
    rewrite (check_peer_run _ _ _ _ _ _ Hv Hp). simpl.
    apply lookup_insert_eq.
Qed.

(** C8: normalization is idempotent.  Both sides of
    [normalize(normalize(x)) == normalize(x)] are the same computation,
    also in the digit-prefixing case; on a non-empty name it returns a
    value that normalization leaves as it is. *)
Theorem normalize_idempotent :
  (∀ x : string,
     normalize Sanitizer.sanitize x ≫= normalize Sanitizer.sanitize =
     normalize Sanitizer.sanitize x) ∧
  (∀ (c : ascii) (rest : string),
     ∃ v, normalize Sanitizer.sanitize (String c rest) = Some v ∧
          normalize Sanitizer.sanitize v = Some v).
Proof.
  split.
  - intros x.
    destruct (normalize Sanitizer.sanitize x) as [v|] eqn:Hv; [|done].
    simpl. by apply valid_identifier_fixed, (normalize_valid x).
  - intros c rest.
    destruct (normalize_nonempty Sanitizer.sanitize (String c rest)) as [v Hv]; [done|].
    exists v. split; [done|].
    by apply valid_identifier_fixed, (normalize_valid (String c rest)).
Qed.

(** Under the other reading of "maps/strips", in which disallowed bytes
    are dropped, neither property holds: ["-1"] becomes ["1"], which
    begins with a digit and normalizes further to ["PEER_1"]. *)
Example strip_reading_breaks_idempotence :
  normalize Sanitizer.sanitize_strip "-1" = Some "1" ∧
  normalize Sanitizer.sanitize_strip "1" = Some "PEER_1".
Proof. split; reflexivity. Qed.

(** ** The empty peer name *)

Lemma check_peer_empty_name (E : env) (peerData : ptr) (w : world) :
  result (check_peer E ("", peerData)) w = Panic.
Proof. reflexivity. Qed.

Lemma peer_pass_empty_name (E : env) (cfg : config) (peerData : ptr) (w : world) :
  Peers cfg !! "" = Some peerData → result (peer_pass E cfg) w = Panic.
Proof.
  intros Hempty. unfold peer_pass.
  apply for_each_panics with (x := ("", peerData)).
  - intros y w1. apply check_peer_never_exits.
  - apply check_peer_empty_name.
  - by apply range_order_elem.
Qed.

(** C9: the name classification is partial.  On the empty name the index
    [peerName[0]] is out of range, so a configuration whose peer table
    has the empty string as a key makes the per-peer pass panic from any
    starting world; a dry run on it panics, and no run on it returns
    normally. *)
Theorem empty_peer_name_panics (E : env) (fl : cli) (w : world)
    (cfg : config) (records : gmap addr peer) (peerData : ptr) :
  loads E fl w cfg records →
  Peers cfg !! "" = Some peerData →
  normalize (sanitize E) "" = None ∧
  (∀ w0, result (peer_pass E cfg) w0 = Panic) ∧
  (DryRun fl = true → result (run E fl) w = Panic) ∧
  result (run E fl) w ≠ Done tt.
Proof.
  intros Hloads Hempty.
  split; [reflexivity|].
  split; [intros w0; by eapply peer_pass_empty_name|].
  unfold result. rewrite (run_loads _ _ _ _ _ Hloads).
  fold (result (loaded_run E fl cfg records) (started E fl w)).
  rewrite loaded_run_result, result_bind.
  split.
  - intros Hdry. unfold write_global at 1. rewrite Hdry. simpl.
    by eapply peer_pass_empty_name.
  - destruct (result (write_global E fl cfg) _); [|done..].
    by erewrite peer_pass_empty_name.
Qed.

(** ** What the run changes in memory and on disk *)

(** The file system at the end of a run is the one lines 81-110 left:
    the per-peer pass, which follows them, writes no file. *)
Lemma run_files_from_global_phase (E : env) (fl : cli) (w : world)
    (cfg : config) (records : gmap addr peer) :
  loads E fl w cfg records →
  files (exec (run E fl) w) =
  files (exec (write_global E fl cfg) (with_store records (started E fl w))).
Proof.
  intros Hloads. unfold exec at 1. rewrite (run_loads _ _ _ _ _ Hloads).
  fold (exec (loaded_run E fl cfg records) (started E fl w)).
  rewrite loaded_run_exec, exec_bind.
  destruct (result (write_global E fl cfg) _); [|done..].
  apply peer_pass_same_files.
Qed.

(** C10: the run mutates only the [ProtocolName] field of the peer
    records.  Every record of the loaded configuration is in the store
    at the end of the run and agrees with the loaded one on every other
    field; the per-peer pass, where the records are mutated, keeps every
    record up to [ProtocolName] and writes no file, so that the file
    system at the end of the run is the one the global phase left before
    any record was mutated: nothing of the records is written back.  A
    dry run leaves the declaration file as it was, and no run writes to
    it unless its path is the path of the global artifact. *)
Theorem only_ProtocolName_is_mutated (E : env) (fl : cli) (w : world)
    (cfg : config) (records : gmap addr peer) :
  loads E fl w cfg records →
  (∀ a p, records !! a = Some p →
     ∃ p', store (exec (run E fl) w) !! a = Some p' ∧
           p' = set_ProtocolName (ProtocolName p') p) ∧
  (∀ w0 a p, store w0 !! a = Some p →
     ∃ p', store (exec (peer_pass E cfg) w0) !! a = Some p' ∧
           p' = set_ProtocolName (ProtocolName p') p) ∧
  (∀ w0, files (exec (peer_pass E cfg) w0) = files w0) ∧
  files (exec (run E fl) w) =
  files (exec (write_global E fl cfg) (with_store records (started E fl w))) ∧
  (DryRun fl = true →
   files (exec (run E fl) w) !! ConfigFile fl = files w !! ConfigFile fl) ∧
  (ConfigFile fl ≠ global_path E cfg →
   files (exec (run E fl) w) !! ConfigFile fl = None ∨
   files (exec (run E fl) w) !! ConfigFile fl = files w !! ConfigFile fl).
Proof.
  intros Hloads. split; [|split; [|split; [|split; [|split]]]].
  - intros a p Hp. unfold exec. rewrite (run_loads _ _ _ _ _ Hloads).
    by apply (loaded_run_records_kept E fl cfg records (started E fl w)).
  - intros w0. apply peer_pass_records_kept.
  - intros w0. apply peer_pass_same_files.
  - by apply run_files_from_global_phase.
  - intros Hdry. by rewrite (run_dry_same_files E fl Hdry w).
  - intros Hne. unfold exec. rewrite (run_loads _ _ _ _ _ Hloads).
    by apply (loaded_run_writes_only E fl cfg records (started E fl w)).
Qed.

(** ** Dry run *)

(** A run that returns has logged the check of every declared peer. *)
Lemma peer_pass_checks_every_peer (E : env) (cfg : config) (w : world)
    (name : string) (a : addr) (p : peer) :
  result (peer_pass E cfg) w = Done tt →
  Peers cfg !! name = Some (Some a) → store w !! a = Some p →
  checking_line name (Asn p) ∈ journal (exec (peer_pass E cfg) w).
Proof.
  intros Hdone Hname Hp. unfold peer_pass in *.
  apply range_order_elem with (E := E) in Hname.
  destruct (for_each_visits (both records_kept journal_grows) _ _ _ _
              (λ y, keeps_both _ _ _ (check_peer_records_kept E y)
                      (check_peer_journal_grows E y)) Hname Hdone)
    as (w1 & [Hrec _] & Hbody & [_ Hgrow]).
  destruct (Hrec a p Hp) as (p1 & Hp1 & Hsame).
  apply check_peer_Done in Hbody as (v & a' & p1' & Hv & [= <-] & Hp1').
  rewrite Hp1 in Hp1'. injection Hp1' as <-.
  apply Hgrow. unfold exec. rewrite (check_peer_run _ _ _ _ _ _ Hv Hp1). simpl.
  apply elem_of_app. right. apply list_elem_of_singleton.
  rewrite Hsame. by destruct p.
Qed.

(** C2: a dry run mutates no file.  The file system after the run is
    the file system before it, for every installation, flag set and
    starting world, however the run ends; and the per-peer processing
    still takes place: a dry run that returns has logged the check of
    every declared peer. *)
Theorem dry_run_leaves_files_untouched (E : env) (fl : cli) (w : world) :
  DryRun fl = true →
  files (exec (run E fl) w) = files w ∧
  (∀ cfg records name a p,
     loads E fl w cfg records → result (run E fl) w = Done tt →
     Peers cfg !! name = Some (Some a) → records !! a = Some p →
     checking_line name (Asn p) ∈ journal (exec (run E fl) w)).
Proof.
  intros Hdry. split; [by apply run_dry_same_files|].
  intros cfg records name a p Hloads Hdone Hname Hp.
  revert Hdone. unfold result, exec. rewrite (run_loads _ _ _ _ _ Hloads).
  fold (result (loaded_run E fl cfg records) (started E fl w)).
  fold (exec (loaded_run E fl cfg records) (started E fl w)).
  rewrite loaded_run_result, loaded_run_exec, exec_bind.
  intros ([] & Hglobal & Hpass)%result_bind_Done. rewrite Hglobal.
  apply (peer_pass_checks_every_peer _ _ _ _ a); [done..|].
  pose proof (write_global_same_store E fl cfg
                (with_store records (started E fl w))) as Hstore.
  red in Hstore. by rewrite Hstore.
Qed.

(** ** Reconciliation *)

(** C1, as the code has it: the run generates no per-peer file.  A run
    that loads its configuration creates and writes no file other than
    the global artifact: every other path is absent afterwards or holds
    what it held before the run; in particular the artifact path of a
    peer holds a file afterwards only if it held that file before. *)
Theorem run_generates_no_peer_file (E : env) (fl : cli) (w : world)
    (cfg : config) (records : gmap addr peer) :
  loads E fl w cfg records →
  (∀ path, path ≠ global_path E cfg →
     files (exec (run E fl) w) !! path = None ∨
     files (exec (run E fl) w) !! path = files w !! path) ∧
  (∀ name p,
     peer_file E cfg name p ≠ global_path E cfg →
     files w !! peer_file E cfg name p = None →
     files (exec (run E fl) w) !! peer_file E cfg name p = None).
Proof.
  intros Hloads.
  assert (writes_only (global_path E cfg) w (exec (run E fl) w)) as Hframe.
  { unfold exec. rewrite (run_loads _ _ _ _ _ Hloads).
    apply (loaded_run_writes_only E fl cfg records (started E fl w)). }
  split; [exact Hframe|].
  intros name p Hne Hbefore. destruct (Hframe _ Hne) as [?|Hsame]; [done|].
  by rewrite Hsame.
Qed.

(** ** Render failure *)

Lemma write_global_render_failure (E : env) (fl : cli) (cfg : config)
    (w : world) (out err : string) :
  DryRun fl = false →
  os_Create_err E (files w) (global_path E cfg) = None →
  ExecuteTemplate E "global.tmpl" cfg (store w) = (out, Some err) →
  ∃ w', write_global E fl cfg w = (Exit 1, w') ∧
        files w' = <[global_path E cfg := out]> (files w) ∧
        last (journal w') = Some (FatalLevel, "Execute global template: " +:+ err) ∧
        store w' = store w.
Proof.
  intros Hdry Hcreate Hrender.
  unfold write_global. rewrite Hdry. cbn [negb].
  unfold bind, logf, os_Create. cbn. rewrite Hcreate. cbn.
  unfold render_and_clean, bind, globalTemplate_ExecuteTemplate. cbn.
  rewrite Hrender. cbn.
  eexists. split; [reflexivity|]. cbn.
  split; [by rewrite alter_insert_eq|].
  split; [apply last_snoc|done].
Qed.

(** C3, as the code has it: a failure of the global template is fatal
    but not atomic.  In a run that is not a dry run, once [os.Create]
    has succeeded, a failing template ends the run with status 1 and the
    logged error, and the target, created or truncated by [os.Create],
    holds exactly the output the template had produced before it
    failed; the stale-file cleanup and the per-peer pass are not
    reached. *)
Theorem render_failure_is_fatal_not_atomic (E : env) (fl : cli) (w : world)
    (cfg : config) (records : gmap addr peer) (out err : string) :
  loads E fl w cfg records →
  DryRun fl = false →
  os_Create_err E (files w) (global_path E cfg) = None →
  ExecuteTemplate E "global.tmpl" cfg records = (out, Some err) →
  result (run E fl) w = Exit 1 ∧
  files (exec (run E fl) w) = <[global_path E cfg := out]> (files w) ∧
  last (journal (exec (run E fl) w)) =
  Some (FatalLevel, "Execute global template: " +:+ err) ∧
  store (exec (run E fl) w) = records.
Proof.
  intros Hloads Hdry Hcreate Hrender.
  destruct (write_global_render_failure E fl cfg
              (with_store records (started E fl w)) out err Hdry Hcreate Hrender)
    as (w' & Hrun & Hfiles & Hlast & Hstore).
  unfold result, exec. rewrite (run_loads _ _ _ _ _ Hloads).
  unfold loaded_run. rewrite install_bind_run. unfold bind. rewrite Hrun.
  by cbn.
Qed.

(** ** The disabled enrichment *)

(** The per-peer pass returns when every declared name is non-empty and
    every entry points to a record. *)
Lemma peer_pass_returns (E : env) (cfg : config) (w : world) :
  (∀ n peerData, Peers cfg !! n = Some peerData →
     n ≠ "" ∧ ∃ b, peerData = Some b ∧ is_Some (store w !! b)) →
  result (peer_pass E cfg) w = Done tt.
Proof.
  intros Hwf. unfold peer_pass.
  apply for_each_returns with (R := records_kept); [apply _|..].
  - apply check_peer_records_kept.
  - intros [n peerData] w1 Hin%range_order_lookup Hkept.
    destruct (Hwf _ _ Hin) as (Hn & b & -> & q & Hq).
    destruct (normalize_nonempty (sanitize E) n Hn) as [v Hv].
    destruct (Hkept b q Hq) as (q1 & Hq1 & _).
    unfold result. by rewrite (check_peer_run _ _ _ _ _ _ Hv Hq1).
Qed.

(** C4, as the code has it: an empty AS-SET is not checked.  For a peer
    of type [peer] or [downstream] whose AS-SET is empty, the per-peer
    pass does not end the run: it returns whenever every declared name
    is non-empty and every entry points to a record; it writes no file,
    for that peer or any other, and leaves the peer's AS-SET empty and
    its type as it was. *)
Theorem empty_as_set_is_not_checked (E : env) (cfg : config) (w : world)
    (name : string) (a : addr) (p : peer) :
  Peers cfg !! name = Some (Some a) → store w !! a = Some p →
  requires_filter p = true → AsSet p = "" →
  (∀ n peerData, Peers cfg !! n = Some peerData →
     n ≠ "" ∧ ∃ b, peerData = Some b ∧ is_Some (store w !! b)) →
  result (peer_pass E cfg) w = Done tt ∧
  files (exec (peer_pass E cfg) w) = files w ∧
  ∃ p', store (exec (peer_pass E cfg) w) !! a = Some p' ∧
        AsSet p' = "" ∧ Type_ p' = Type_ p.
Proof.
  intros Hname Hp Hfilter Hempty Hwf.
  split; [by apply peer_pass_returns|].
  split; [apply peer_pass_same_files|].
  destruct (peer_pass_records_kept E cfg w a p Hp) as (p' & Hp' & Hsame).
  exists p'. split; [done|]. rewrite Hsame. simpl. by split.
Qed.

(** What a run leaves of a loaded record. *)
Lemma run_record (E : env) (fl : cli) (w : world) (cfg : config)
    (records : gmap addr peer) (a : addr) (p : peer) :
  loads E fl w cfg records → records !! a = Some p →
  ∃ p', store (exec (run E fl) w) !! a = Some p' ∧
        same_but_ProtocolName p p'.
Proof.
  intros Hloads Hp. unfold exec. rewrite (run_loads _ _ _ _ _ Hloads).
  by apply (loaded_run_records_kept E fl cfg records (started E fl w)).
Qed.

(** C5, as the code has it: the import limits are never touched.  After
    a run, the import limits of every loaded peer are the loaded ones:
    an explicit limit is never overwritten, and an unset (zero) limit
    stays zero whatever the registry holds, so that the fallback rule
    against a registry answer holds exactly when the registry value of
    each unset limit is zero too. *)
Theorem import_limits_are_never_touched (E : env) (fl : cli) (w : world)
    (cfg : config) (records : gmap addr peer) (a : addr) (p : peer) :
  loads E fl w cfg records → records !! a = Some p →
  ∃ p', store (exec (run E fl) w) !! a = Some p' ∧
        ImportLimit4 p' = ImportLimit4 p ∧
        ImportLimit6 p' = ImportLimit6 p ∧
        ∀ db, import_limit_fallback db p p' ↔
              (ImportLimit4 p = 0 → MaxPfx4 db = 0) ∧
              (ImportLimit6 p = 0 → MaxPfx6 db = 0).
Proof.
  intros Hloads Hp.
  destruct (run_record E fl w cfg records a p Hloads Hp) as (p' & Hp' & Hsame).
  exists p'. split; [done|].
  assert (ImportLimit4 p' = ImportLimit4 p) as H4 by (by rewrite Hsame).
  assert (ImportLimit6 p' = ImportLimit6 p) as H6 by (by rewrite Hsame).
  split; [done|]. split; [done|].
  intros db. unfold import_limit_fallback. rewrite H4, H6.
  destruct (N.eqb_spec (ImportLimit4 p) 0) as [Hz4|Hn4],
           (N.eqb_spec (ImportLimit6 p) 0) as [Hz6|Hn6];
    intuition congruence.
Qed.

(** C6, as the code has it: the AS-SET is never resolved.  After a run,
    the AS-SET of every loaded peer is the loaded one: a manually
    configured AS-SET is never overwritten, an empty one stays empty
    whatever the registry holds, and the run logs no warning. *)
Theorem as_set_is_never_resolved (E : env) (fl : cli) (w : world)
    (cfg : config) (records : gmap addr peer) (a : addr) (p : peer) :
  loads E fl w cfg records → records !! a = Some p →
  (∃ p', store (exec (run E fl) w) !! a = Some p' ∧ AsSet p' = AsSet p) ∧
  (∀ e, e ∈ journal (exec (run E fl) w) → e ∈ journal w ∨ e.1 ≠ WarnLevel).
Proof.
  intros Hloads Hp. split; [|apply run_no_new_warning].
  destruct (run_record E fl w cfg records a p Hloads Hp) as (p' & Hp' & Hsame).
  exists p'. split; [done|]. by rewrite Hsame.
Qed.

(** ** The concrete installation at work *)

Lemma example_loads (render : string * option string)
    (cfg : config) (records : gmap addr peer) (dry : bool) :
  loads (Demo.installation render (cfg, records)) (Demo.flags dry)
    Demo.boot cfg records.
Proof.
  split; [reflexivity|]. split; [reflexivity|].
  exists "peers: ...". split; [|reflexivity]. by vm_compute.
Qed.

(** C1 fails as stated: after a successful run that is not a dry run,
    the declared peer [foo] has no file in the output directory, and
    the file of the peer [OLD], which is no longer declared, is still
    there. *)
Lemma full_reconciliation_counterexample :
  DryRun (Demo.flags false) = false ∧
  result (run (Demo.installation Demo.ok_render Demo.one_peer)
            (Demo.flags false)) Demo.boot = Done tt ∧
  files (exec (run (Demo.installation Demo.ok_render Demo.one_peer)
                 (Demo.flags false)) Demo.boot)
    !! "/etc/bird/AS65001_OLD.conf" = Some "protocol bgp OLD { }" ∧
  ¬ full_reconciliation
      (Demo.installation Demo.ok_render Demo.one_peer)
      Demo.one_peer.1 Demo.one_peer.2
      (files (exec (run (Demo.installation Demo.ok_render Demo.one_peer)
                      (Demo.flags false)) Demo.boot)).
Proof.
  split; [reflexivity|]. split; [by vm_compute|]. split; [by vm_compute|].
  intros [Hfile _].
  assert (Demo.one_peer.1.(Peers) !! "foo" = Some (Some 1%positive)) as Hname
    by by vm_compute.
  assert (Demo.one_peer.2 !! 1%positive = Some Demo.foo) as Hrec
    by by vm_compute.
  destruct (Hfile "foo" 1%positive Demo.foo Hname Hrec) as [data Hdata].
  vm_compute in Hdata. discriminate.
Qed.

Lemma run_generates_no_peer_file_witness :
  peer_file (Demo.installation Demo.ok_render Demo.one_peer)
    Demo.one_peer.1 "foo" Demo.foo = "/etc/bird/AS65000_foo.conf" ∧
  files Demo.boot !! "/etc/bird/AS65000_foo.conf" = None ∧
  files (exec (run (Demo.installation Demo.ok_render Demo.one_peer)
                 (Demo.flags false)) Demo.boot)
    !! "/etc/bird/AS65000_foo.conf" = None.
Proof.
  split; [by vm_compute|]. split; [by vm_compute|].
  apply (proj2 (run_generates_no_peer_file
                  (Demo.installation Demo.ok_render Demo.one_peer)
                  (Demo.flags false) Demo.boot
                  Demo.one_peer.1 Demo.one_peer.2
                  (example_loads Demo.ok_render _ _ false))
           "foo" Demo.foo); by vm_compute.
Defined.

(** C3 fails as stated: the global template fails after it has written
    the word [router]; the run is fatal, and the target, which held the
    artifact of an earlier run, is neither absent nor as it was. *)
Lemma render_atomicity_counterexample :
  result (run (Demo.installation Demo.bad_render Demo.one_peer)
            (Demo.flags false)) Demo.boot = Exit 1 ∧
  files Demo.boot !! "/etc/bird/bird.conf" = Some "router id 192.0.2.1;" ∧
  files (exec (run (Demo.installation Demo.bad_render Demo.one_peer)
                 (Demo.flags false)) Demo.boot)
    !! "/etc/bird/bird.conf" = Some "router" ∧
  ¬ no_partial_artifact (files Demo.boot)
      (files (exec (run (Demo.installation Demo.bad_render Demo.one_peer)
                      (Demo.flags false)) Demo.boot))
      "/etc/bird/bird.conf".
Proof.
  split; [by vm_compute|]. split; [by vm_compute|]. split; [by vm_compute|].
  intros [Habsent|Hsame]; [vm_compute in Habsent|vm_compute in Hsame];
    discriminate.
Qed.

Lemma render_failure_witness :
  result (run (Demo.installation Demo.bad_render Demo.one_peer)
            (Demo.flags false)) Demo.boot = Exit 1 ∧
  files (exec (run (Demo.installation Demo.bad_render Demo.one_peer)
                 (Demo.flags false)) Demo.boot) =
  <[ "/etc/bird/bird.conf" := "router" ]> (files Demo.boot).
Proof.
  destruct (render_failure_is_fatal_not_atomic
              (Demo.installation Demo.bad_render Demo.one_peer)
              (Demo.flags false) Demo.boot _ _ "router"
              "template: global.tmpl: map has no entry for key"
              (example_loads Demo.bad_render _ _ false)
              eq_refl eq_refl eq_refl)
    as (Hexit & Hfiles & _).
  split; [exact Hexit|exact Hfiles].
Defined.

(** C4 fails as stated: the peer [foo] is of type [peer] and has no
    AS-SET, before the run and after it, and the run returns
    normally. *)
Lemma empty_as_set_counterexample :
  requires_filter Demo.foo = true ∧
  result (run (Demo.installation Demo.ok_render Demo.one_peer)
            (Demo.flags false)) Demo.boot = Done tt ∧
  (AsSet <$> store (exec (run (Demo.installation Demo.ok_render Demo.one_peer)
                           (Demo.flags false)) Demo.boot) !! 1%positive) = Some "" ∧
  ¬ fatal (result (run (Demo.installation Demo.ok_render Demo.one_peer)
                     (Demo.flags false)) Demo.boot).
Proof.
  split; [by vm_compute|]. split; [by vm_compute|]. split; [by vm_compute|].
  intros (status & Hexit & _). vm_compute in Hexit. discriminate.
Qed.

Lemma example_well_formed (name : string) (p : peer) :
  name ≠ "" →
  ∀ n (peerData : ptr),
    Peers (Demo.a_config {[ name := Some 1%positive ]}) !! n = Some peerData →
    n ≠ "" ∧ ∃ b, peerData = Some b ∧
      is_Some (store (with_store {[ 1%positive := p ]} Demo.boot) !! b).
Proof.
  intros Hname n peerData Hn. simpl in Hn.
  apply lookup_singleton_Some in Hn as [<- <-].
  split; [done|]. exists 1%positive. split; [done|].
  exists p. apply lookup_singleton_eq.
Qed.

Lemma empty_as_set_is_not_checked_witness :
  requires_filter Demo.foo = true ∧ AsSet Demo.foo = "" ∧
  result (peer_pass (Demo.installation Demo.ok_render Demo.one_peer)
            Demo.one_peer.1)
    (with_store Demo.one_peer.2 Demo.boot) = Done tt.
Proof.
  split; [reflexivity|]. split; [reflexivity|].
  exact (proj1 (empty_as_set_is_not_checked
                  (Demo.installation Demo.ok_render Demo.one_peer)
                  Demo.one_peer.1
                  (with_store Demo.one_peer.2 Demo.boot)
                  "foo" 1%positive Demo.foo
                  (lookup_singleton_eq _ _) (lookup_singleton_eq _ _)
                  eq_refl eq_refl
                  (example_well_formed "foo" Demo.foo
                     ltac:(discriminate)))).
Defined.

(** C5 fails as stated: the peer [foo] has not opted out of enrichment
    and has no IPv4 import limit, the registry holds 500, and after the
    run the limit is still zero. *)
Lemma import_limit_counterexample :
  NoPeeringDB Demo.foo = false ∧ ImportLimit4 Demo.foo = 0 ∧
  MaxPfx4 Demo.registry_500 = 500 ∧
  result (run (Demo.installation Demo.ok_render Demo.one_peer)
            (Demo.flags false)) Demo.boot = Done tt ∧
  store (exec (run (Demo.installation Demo.ok_render Demo.one_peer)
                 (Demo.flags false)) Demo.boot) !! 1%positive =
  Some (set_ProtocolName "foo" Demo.foo) ∧
  ¬ import_limit_fallback Demo.registry_500 Demo.foo
      (set_ProtocolName "foo" Demo.foo).
Proof.
  repeat (split; [by vm_compute|]).
  intros [H4 _]. vm_compute in H4. discriminate.
Qed.

Lemma import_limits_witness :
  ImportLimit4 Demo.foo_manual = 200 ∧
  (ImportLimit4 <$>
     store (exec (run (Demo.installation Demo.ok_render Demo.one_manual_peer)
                    (Demo.flags false)) Demo.boot) !! 1%positive) = Some 200.
Proof.
  split; [reflexivity|].
  destruct (import_limits_are_never_touched
              (Demo.installation Demo.ok_render Demo.one_manual_peer)
              (Demo.flags false) Demo.boot
              Demo.one_manual_peer.1 Demo.one_manual_peer.2
              1%positive Demo.foo_manual
              (example_loads Demo.ok_render _ _ false)
              (lookup_singleton_eq _ _))
    as (p' & Hp' & H4 & _).
  rewrite Hp'. simpl. by rewrite H4.
Defined.

(** C6 fails as stated: the peer [foo] of AS 65000 has no manual AS-SET,
    the registry AS-SET is empty, and after the run the AS-SET is still
    empty, not [AS65000]. *)
Lemma as_set_counterexample :
  NoPeeringDB Demo.foo = false ∧ AsSet Demo.foo = "" ∧
  Asn Demo.foo = 65000 ∧ DbAsSet Demo.registry_500 = "" ∧
  result (run (Demo.installation Demo.ok_render Demo.one_peer)
            (Demo.flags false)) Demo.boot = Done tt ∧
  store (exec (run (Demo.installation Demo.ok_render Demo.one_peer)
                 (Demo.flags false)) Demo.boot) !! 1%positive =
  Some (set_ProtocolName "foo" Demo.foo) ∧
  ¬ as_set_synthesized Demo.registry_500 Demo.foo
      (set_ProtocolName "foo" Demo.foo).
Proof.
  repeat (split; [by vm_compute|]).
  intros Hsyn. specialize (Hsyn eq_refl eq_refl).
  vm_compute in Hsyn. discriminate.
Qed.

Lemma as_set_witness :
  AsSet Demo.foo_manual = "AS-FOO" ∧
  (AsSet <$>
     store (exec (run (Demo.installation Demo.ok_render Demo.one_manual_peer)
                    (Demo.flags true)) Demo.boot) !! 1%positive) = Some "AS-FOO".
Proof.
  split; [reflexivity|].
  destruct (as_set_is_never_resolved
              (Demo.installation Demo.ok_render Demo.one_manual_peer)
              (Demo.flags true) Demo.boot
              Demo.one_manual_peer.1 Demo.one_manual_peer.2
              1%positive Demo.foo_manual
              (example_loads Demo.ok_render _ _ true)
              (lookup_singleton_eq _ _))
    as [(p' & Hp' & Has) _].
  rewrite Hp'. simpl. by rewrite Has.
Defined.

Lemma dry_run_witness :
  DryRun (Demo.flags true) = true ∧
  files (exec (run (Demo.installation Demo.ok_render Demo.one_peer)
                 (Demo.flags true)) Demo.boot) = files Demo.boot ∧
  (InfoLevel, "Checking config for foo AS65000") ∈
  journal (exec (run (Demo.installation Demo.ok_render Demo.one_peer)
                   (Demo.flags true)) Demo.boot).
Proof.
  destruct (dry_run_leaves_files_untouched
              (Demo.installation Demo.ok_render Demo.one_peer)
              (Demo.flags true) Demo.boot eq_refl)
    as [Hfiles Hchecked].
  split; [reflexivity|]. split; [exact Hfiles|].
  apply (Hchecked Demo.one_peer.1 Demo.one_peer.2 "foo" 1%positive
           Demo.foo).
  - apply example_loads.
  - by vm_compute.
  - apply lookup_singleton_eq.
  - apply lookup_singleton_eq.
Defined.

Lemma ProtocolName_witness :
  begins_with_digit "100foo" = true ∧
  normalize (sanitize (Demo.installation Demo.ok_render Demo.digit_peer))
    "100foo" = Some "PEER_100foo" ∧
  (∃ v, normalize Sanitizer.sanitize "4 you" = Some v ∧
        valid_identifier v = true ∧ begins_with_digit v = false) ∧
  (∃ v, normalize Sanitizer.sanitize "100foo" = Some v ∧
        store (exec (check_peer
                       (Demo.installation Demo.ok_render Demo.digit_peer)
                       ("100foo", Some 1%positive))
                 (with_store Demo.digit_peer.2 Demo.boot)) !! 1%positive =
        Some (set_ProtocolName v Demo.foo)).
Proof.
  destruct ProtocolName_prefix_and_validity as (Hdigit & _ & Hvalid & Hstored).
  split; [reflexivity|].
  split; [exact (Hdigit (Demo.installation Demo.ok_render Demo.digit_peer)
                   "100foo" eq_refl)|].
  split; [apply Hvalid; discriminate|].
  apply (Hstored (Demo.installation Demo.ok_render Demo.digit_peer)
           "100foo" 1%positive Demo.foo
           (with_store Demo.digit_peer.2 Demo.boot));
    [discriminate|apply lookup_singleton_eq].
Defined.

Lemma empty_peer_name_witness :
  Peers Demo.nameless_peer.1 !! "" = Some (Some 1%positive) ∧
  result (run (Demo.installation Demo.ok_render Demo.nameless_peer)
            (Demo.flags true)) Demo.boot = Panic ∧
  result (run (Demo.installation Demo.ok_render Demo.nameless_peer)
            (Demo.flags false)) Demo.boot ≠ Done tt.
Proof.
  split; [apply lookup_singleton_eq|]. split.
  - exact (proj1 (proj2 (proj2 (empty_peer_name_panics
             (Demo.installation Demo.ok_render Demo.nameless_peer)
             (Demo.flags true) Demo.boot
             Demo.nameless_peer.1 Demo.nameless_peer.2 (Some 1%positive)
             (example_loads Demo.ok_render _ _ true)
             (lookup_singleton_eq _ _)))) eq_refl).
  - exact (proj2 (proj2 (proj2 (empty_peer_name_panics
             (Demo.installation Demo.ok_render Demo.nameless_peer)
             (Demo.flags false) Demo.boot
             Demo.nameless_peer.1 Demo.nameless_peer.2 (Some 1%positive)
             (example_loads Demo.ok_render _ _ false)
             (lookup_singleton_eq _ _))))).
Defined.

Lemma only_ProtocolName_witness :
  ∃ p', store (exec (run (Demo.installation Demo.ok_render Demo.one_manual_peer)
                       (Demo.flags false)) Demo.boot) !! 1%positive = Some p' ∧
        p' = set_ProtocolName (ProtocolName p') Demo.foo_manual.
Proof.
  exact (proj1 (only_ProtocolName_is_mutated
                  (Demo.installation Demo.ok_render Demo.one_manual_peer)
                  (Demo.flags false) Demo.boot
                  Demo.one_manual_peer.1 Demo.one_manual_peer.2
                  (example_loads Demo.ok_render _ _ false))
           1%positive Demo.foo_manual (lookup_singleton_eq _ _)).
Defined.

(** ** The disabled block, had it been enabled *)

Section DisabledBlock.

Variables (now : string) (db : peeringDbData) (peerName : string) (p : peer).

Lemma fill_limit4_fields :
  let p' := (Disabled.fill_limit4 peerName db p).1 in
  AsSet p' = AsSet p ∧ ImportLimit6 p' = ImportLimit6 p ∧ Asn p' = Asn p ∧
  ImportLimit4 p' = (if ImportLimit4 p =? 0 then MaxPfx4 db else ImportLimit4 p).
Proof. unfold Disabled.fill_limit4. by destruct (ImportLimit4 p =? 0). Qed.

Lemma fill_limit6_fields :
  let p' := (Disabled.fill_limit6 peerName db p).1 in
  AsSet p' = AsSet p ∧ ImportLimit4 p' = ImportLimit4 p ∧ Asn p' = Asn p ∧
  ImportLimit6 p' = (if ImportLimit6 p =? 0 then MaxPfx6 db else ImportLimit6 p).
Proof. unfold Disabled.fill_limit6. by destruct (ImportLimit6 p =? 0). Qed.

Lemma resolve_AsSet_fields :
  let p' := (Disabled.resolve_AsSet peerName db p).1 in
  ImportLimit4 p' = ImportLimit4 p ∧ ImportLimit6 p' = ImportLimit6 p ∧
  (AsSet p ≠ "" → AsSet p' = AsSet p).
Proof.
  unfold Disabled.resolve_AsSet.
  destruct (decide (AsSet p = "")) as [Hempty|Hmanual]; [|done].
  destruct (Disabled.first_element _ _) as [dbAsSet log1].
  destruct (Disabled.trim_prefix _ _) as [asSet log2].
  by destruct (decide (dbAsSet = "")).
Qed.

End DisabledBlock.

(** The rule of the specification for import limits is the one of the
    disabled block: for a peer that has not opted out, an unset limit
    takes the registry value and a set one is kept. *)
Lemma disabled_import_limit_fallback (now : string) (db : peeringDbData)
    (peerName : string) (p : peer) :
  NoPeeringDB p = false →
  import_limit_fallback db p (Disabled.enrich now db peerName p).1.
Proof.
  intros Hopt. unfold Disabled.enrich, import_limit_fallback. rewrite Hopt.
  pose proof (fill_limit4_fields db peerName (Disabled.set_QueryTime now p))
    as (_ & H46 & _ & H44).
  destruct (Disabled.fill_limit4 _ _ _) as [p1 log1].
  pose proof (fill_limit6_fields db peerName p1) as (_ & H64 & _ & H66).
  destruct (Disabled.fill_limit6 _ _ _) as [p2 log2].
  pose proof (resolve_AsSet_fields db peerName p2) as (H4 & H6 & _).
  destruct (Disabled.resolve_AsSet _ _ _) as [p3 log3].
  simpl in *. by rewrite H4, H6, H64, H66, H44, H46.
Qed.

(** A manually configured AS-SET is kept by the disabled block. *)
Lemma disabled_keeps_manual_AsSet (now : string) (db : peeringDbData)
    (peerName : string) (p : peer) :
  AsSet p ≠ "" → AsSet (Disabled.enrich now db peerName p).1 = AsSet p.
Proof.
  intros Hmanual. unfold Disabled.enrich.
  destruct (NoPeeringDB p); [done|].
  pose proof (fill_limit4_fields db peerName (Disabled.set_QueryTime now p))
    as (Ha1 & _).
  destruct (Disabled.fill_limit4 _ _ _) as [p1 log1].
  pose proof (fill_limit6_fields db peerName p1) as (Ha2 & _).
  destruct (Disabled.fill_limit6 _ _ _) as [p2 log2].
  pose proof (resolve_AsSet_fields db peerName p2) as (_ & _ & Ha3).
  destruct (Disabled.resolve_AsSet _ _ _) as [p3 log3].
  simpl in *. rewrite Ha3; congruence.
Qed.

(** The examples of the specification, on the disabled block. *)
Example disabled_examples :
  let resolved (registry : string) :=
    Disabled.enrich "now" {| MaxPfx4 := 500; MaxPfx6 := 500; DbAsSet := registry |}
      "foo" Demo.foo in
  AsSet (resolved "RIPE::AS-FOO").1 = "AS-FOO" ∧
  AsSet (resolved "AS-FOO AS-BAR").1 = "AS-FOO" ∧
  (WarnLevel,
   "[foo] has a space in their PeeringDB as-set field. Selecting first element AS-FOO")
    ∈ (resolved "AS-FOO AS-BAR").2 ∧
  AsSet (resolved "").1 = "AS65000" ∧
  ImportLimit4 (resolved "").1 = 500 ∧
  ImportLimit4
    (Disabled.enrich "now" Demo.registry_500 "foo" Demo.foo_manual).1 = 200.
Proof.
  cbv zeta. split_and!; try by vm_compute.
  vm_compute. repeat constructor.
Qed.

(** The disabled block synthesizes [AS<asn>] when the registry value is
    empty, not when the resolved value is: a registry value that ends
    in the scope separator resolves to the empty AS-SET, which the test
    of lines 172-175 then rejects for a peer of type [peer]. *)
Example disabled_empty_after_separator :
  let p' := (Disabled.enrich "now"
               {| MaxPfx4 := 500; MaxPfx6 := 500; DbAsSet := "RIPE::" |}
               "foo" Demo.foo).1 in
  AsSet p' = "" ∧ Disabled.missing_AsSet p' = true.
Proof. split; by vm_compute. Qed.

(** * More of [main.go] *)

(** ** Start-up (lines 38-79) *)

Lemma prefix_app (p s : string) :
  String.prefix p s = true ↔ ∃ post, s = p +:+ post.
Proof.
  revert s. induction p as [|a p IH]; intros s.
  - split; [by exists s|by destruct s].
  - destruct s as [|b s]; simpl; [split; [done|by intros [post ?]]|].
    destruct (Ascii.ascii_dec a b) as [->|Hne].
    + rewrite IH. split; intros [post Hpost]; exists post.
      * by rewrite Hpost.
      * by injection Hpost.
    + split; [done|]. intros [post Hpost]. by injection Hpost as -> _.
Qed.

(** [strings.Contains] finds the substring wherever it stands. *)
Lemma strings_Contains_app (s substr : string) :
  strings_Contains s substr = true ↔ ∃ pre post, s = pre +:+ substr +:+ post.
Proof.
  induction s as [|c s IH]; cbn [strings_Contains].
  - rewrite orb_false_r, prefix_app. split.
    + intros [post Hpost]. by exists "", post.
    + intros (pre & post & Heq). destruct pre; [by exists post|done].
  - rewrite orb_true_iff, prefix_app, IH. split.
    + intros [[post Hpost]|(pre & post & Heq)].
      * by exists "", post.
      * exists (String c pre), post. by rewrite Heq.
    + intros (pre & post & Heq). destruct pre as [|c' pre].
      * left. by exists post.
      * right. exists pre, post. by injection Heq.
Qed.

Lemma run_stops_before_loading (E : env) (fl : cli) (w : world) :
  (∀ cfg records, ¬ loads E fl w cfg records) →
  ∃ entries,
    run E fl w =
    (Exit (if ShowVersion fl then 0 else 1),
     {| files := files w; store := store w; journal := journal w ++ entries |}).
Proof.
  intros Hnot. unfold run.
  destruct (ShowVersion fl) eqn:Hver; [eexists; reflexivity|].
  destruct (loadTemplates E) as [err|] eqn:Htpl.
  { exists [(InfoLevel, "Starting  " +:+ version E); (FatalLevel, err)].
    unfold bind, logf, log_Fatal, with_entry. simpl.
    by rewrite <- app_assoc. }
  unfold bind, logf, ioutil_ReadFile. simpl.
  destruct (files w !! ConfigFile fl) as [configFile|] eqn:Hfile; simpl.
  - destruct (loadConfig E configFile) as [err|[cfg records]] eqn:Hload.
    + eexists [_; _; _; _]. unfold log_Fatal, with_entry. simpl.
      by rewrite <- !app_assoc.
    + destruct (Hnot cfg records). by repeat split; [..|exists configFile].
  - eexists [_; _; _; _]. unfold log_Fatal, with_entry. simpl.
    by rewrite <- !app_assoc.
Qed.

(** X1: a run that gets no configuration (the version was asked for,
    the templates do not load, the declaration file cannot be read or
    does not decode) exits with status 0 for the version and 1
    otherwise, and leaves the file system and the store as they were,
    whether or not it is a dry run. *)
Theorem run_without_configuration (E : env) (fl : cli) (w : world) :
  (∀ cfg records, ¬ loads E fl w cfg records) →
  result (run E fl) w = Exit (if ShowVersion fl then 0 else 1) ∧
  files (exec (run E fl) w) = files w ∧
  store (exec (run E fl) w) = store w.
Proof.
  intros [entries Hrun]%run_stops_before_loading.
  unfold result, exec. by rewrite Hrun.
Qed.

Lemma run_without_configuration_witness :
  result (run (Demo.installation Demo.ok_render Demo.one_peer) Demo2.lost_flags)
    Demo.boot = Exit 1 ∧
  files (exec (run (Demo.installation Demo.ok_render Demo.one_peer) Demo2.lost_flags)
           Demo.boot) = files Demo.boot.
Proof.
  destruct (run_without_configuration
              (Demo.installation Demo.ok_render Demo.one_peer)
              Demo2.lost_flags Demo.boot) as (Hexit & Hfiles & _).
  - intros cfg records (_ & _ & configFile & Hfile & _).
    vm_compute in Hfile. discriminate.
  - split; [exact Hexit|exact Hfiles].
Defined.

Section Loud.

Lemma exits_loudly_bind {A B} (m : M A) (k : A → M B) :
  exits_loudly m → (∀ a, exits_loudly (k a)) → exits_loudly (bind m k).
Proof.
  intros Hm Hk w s. rewrite result_bind, exec_bind.
  destruct (result m w) as [a|s'|] eqn:Hres; [apply Hk| |done].
  intros [= ->]. by apply Hm.
Qed.

Lemma exits_loudly_for_each {A} (xs : list A) (body : A → M unit) :
  (∀ x, exits_loudly (body x)) → exits_loudly (for_each xs body).
Proof.
  intros Hbody. induction xs as [|x xs IH]; [done|].
  simpl. apply exits_loudly_bind; [apply Hbody|by intros _].
Qed.

Lemma exits_loudly_logf lv msg : exits_loudly (logf lv msg).
Proof. by intros w s. Qed.

Lemma exits_loudly_log_Fatal {A} msg : exits_loudly (@log_Fatal A msg).
Proof.
  intros w s [= <-]. split; [done|]. exists msg. apply last_snoc.
Qed.

Variable E : env.

Lemma exits_loudly_remove_old f : exits_loudly (remove_old E f).
Proof.
  apply exits_loudly_bind.
  - intros w s. unfold result, os_Remove.
    by destruct (os_Remove_err E (files w) f).
  - intros [e|]; [apply exits_loudly_log_Fatal|done].
Qed.

Lemma exits_loudly_write_global fl cfg : exits_loudly (write_global E fl cfg).
Proof.
  unfold write_global.
  destruct (negb (DryRun fl)); [|apply exits_loudly_logf].
  apply exits_loudly_bind; [apply exits_loudly_logf|intros _].
  apply exits_loudly_bind.
  { intros w s. unfold result, os_Create.
    by destruct (os_Create_err E (files w) _). }
  intros [err|globalFile]; [apply exits_loudly_log_Fatal|].
  apply exits_loudly_bind; [apply exits_loudly_logf|intros _].
  apply exits_loudly_bind; [apply exits_loudly_logf|intros _].
  apply exits_loudly_bind.
  { intros w s. unfold result, globalTemplate_ExecuteTemplate.
    by destruct (ExecuteTemplate E _ _ _). }
  intros [e|]; [apply exits_loudly_log_Fatal|].
  apply exits_loudly_bind; [apply exits_loudly_logf|intros _].
  apply exits_loudly_bind; [by intros w s|].
  intros [e|old]; [apply exits_loudly_log_Fatal|].
  apply exits_loudly_for_each, exits_loudly_remove_old.
Qed.

Lemma exits_loudly_peer_pass cfg : exits_loudly (peer_pass E cfg).
Proof.
  apply exits_loudly_for_each. intros entry w s Hexit.
  by destruct (check_peer_never_exits E entry w) as [H|H]; rewrite H in Hexit.
Qed.

Lemma exits_loudly_run fl :
  ShowVersion fl = false → exits_loudly (run E fl).
Proof.
  intros Hver. unfold run. rewrite Hver.
  apply exits_loudly_bind; [apply exits_loudly_logf|intros _].
  destruct (loadTemplates E); [apply exits_loudly_log_Fatal|].
  apply exits_loudly_bind; [apply exits_loudly_logf|intros _].
  apply exits_loudly_bind; [apply exits_loudly_logf|intros _].
  apply exits_loudly_bind.
  { intros w s. unfold result, ioutil_ReadFile.
    by destruct (files w !! ConfigFile fl). }
  intros [err|configFile]; [apply exits_loudly_log_Fatal|].
  destruct (loadConfig E configFile) as [err|[cfg records]];
    [apply exits_loudly_log_Fatal|].
  apply exits_loudly_bind; [by intros w s|intros _].
  apply exits_loudly_bind; [apply exits_loudly_write_global|intros _].
  apply exits_loudly_peer_pass.
Qed.

End Loud.

(** X2: the run fails loudly.  Whenever a run exits, either the version
    was asked for and the status is 0, or the status is 1 and the last
    line of the journal is the fatal message; this covers every
    [log.Fatal] of [main] after the flags are parsed. *)
Theorem run_exits_loudly (E : env) (fl : cli) (w : world) (s : N) :
  result (run E fl) w = Exit s →
  (ShowVersion fl = true ∧ s = 0) ∨
  (ShowVersion fl = false ∧ s = 1 ∧
   ∃ msg, last (journal (exec (run E fl) w)) = Some (FatalLevel, msg)).
Proof.
  intros Hexit. destruct (ShowVersion fl) eqn:Hver.
  - left. split; [done|]. revert Hexit. unfold run. rewrite Hver.
    by intros [= <-].
  - right. split; [done|]. by apply exits_loudly_run.
Qed.

Lemma run_exits_loudly_witness :
  ∃ msg,
    last (journal (exec (run (Demo2.read_only Demo.one_peer) (Demo.flags false))
                     Demo.boot)) = Some (FatalLevel, msg).
Proof.
  destruct (run_exits_loudly (Demo2.read_only Demo.one_peer) (Demo.flags false)
              Demo.boot 1) as [[Hver _]|(_ & _ & Hloud)].
  - by vm_compute.
  - discriminate Hver.
  - exact Hloud.
Defined.

(** X3: when the flags do not parse, [main] exits with status 1 and
    touches neither the file system nor the store; it is silent exactly
    when the text of the error has [Usage] somewhere in it, and logs the
    error as fatal otherwise. *)
Theorem main_parse_error (E : env) (args : list string) (err : string)
    (w : world) :
  flags_ParseArgs E args = inl err →
  result (main E args) w = Exit 1 ∧
  files (exec (main E args) w) = files w ∧
  store (exec (main E args) w) = store w ∧
  (journal (exec (main E args) w) = journal w ↔
   ∃ pre post, err = pre +:+ "Usage" +:+ post) ∧
  (journal (exec (main E args) w) = journal w ∨
   journal (exec (main E args) w) = journal w ++ [(FatalLevel, err)]).
Proof.
  intros Hparse. unfold result, exec, main. rewrite Hparse.
  rewrite <- strings_Contains_app.
  destruct (strings_Contains err "Usage"); simpl.
  - repeat split; auto.
  - repeat split; auto; [|done].
    intros Heq. apply (f_equal length) in Heq.
    rewrite length_app in Heq. simpl in Heq. lia.
Qed.

Lemma main_parse_error_witness :
  result (main (Demo2.installation Demo.one_peer Demo.Glob (λ _, false)) [])
    Demo.boot = Exit 1 ∧
  journal (exec (main (Demo2.installation Demo.one_peer Demo.Glob (λ _, false)) [])
             Demo.boot) = journal Demo.boot.
Proof.
  destruct (main_parse_error
              (Demo2.installation Demo.one_peer Demo.Glob (λ _, false)) []
              "Usage: wireframe [OPTIONS]" Demo.boot eq_refl)
    as (Hexit & _ & _ & [_ Hsilent] & _).
  split; [exact Hexit|].
  apply Hsilent. by exists "", ": wireframe [OPTIONS]".
Defined.

(** X4: whatever the arguments, [main] leaves the file system as it was
    unless they parse to flags of a run that is not a dry run. *)
Theorem main_writes_only_when_asked (E : env) (args : list string) (w : world) :
  (∀ fl, flags_ParseArgs E args = inr fl → DryRun fl = true) →
  files (exec (main E args) w) = files w.
Proof.
  intros Hdry. unfold main.
  destruct (flags_ParseArgs E args) as [err|fl] eqn:Hparse.
  - unfold exec. by destruct (negb (strings_Contains err "Usage")).
  - apply run_dry_same_files. by apply Hdry.
Qed.

Lemma main_writes_only_when_asked_witness :
  files (exec (main (Demo2.installation Demo.one_peer Demo.Glob (λ _, false))
                 ["wireframe"; "--dry-run"]) Demo.boot) = files Demo.boot.
Proof.
  apply main_writes_only_when_asked. by intros fl [= <-].
Defined.

(** ** The global artifact and the cleanup (lines 81-110) *)

Lemma lookup_removed (old : list string) (fs : gmap string string) (k : string) :
  removed old fs !! k = if decide (k ∈ old) then None else fs !! k.
Proof.
  revert fs. induction old as [|f old IH]; intros fs.
  - by rewrite decide_False by apply not_elem_of_nil.
  - change (removed (f :: old) fs) with (removed old (delete f fs)).
    rewrite IH. destruct (decide (k ∈ old)) as [Hin|Hout].
    + by rewrite decide_True by (by right).
    + destruct (decide (k = f)) as [->|Hne].
      * rewrite decide_True by (by left). apply lookup_delete_eq.
      * rewrite decide_False by (by intros [?|?]%elem_of_cons).
        by apply lookup_delete_ne.
Qed.

Section Cleanup.

Variable E : env.

(** The cleanup removes every file of the list when the system refuses
    none. *)
Lemma for_each_remove_old_all old w :
  (∀ fs f, f ∈ old → os_Remove_err E fs f = None) →
  for_each old (remove_old E) w =
  (Done tt, with_files (removed old (files w)) w).
Proof.
  revert w. induction old as [|f old IH]; intros w Hok.
  - by destruct w.
  - simpl. unfold bind at 1, remove_old at 1, bind, os_Remove.
    rewrite (Hok (files w) f) by (by left). simpl.
    rewrite IH; [done|]. intros fs g Hg. apply Hok. by right.
Qed.

(** It stops at the first file the system refuses to remove. *)
Lemma for_each_remove_old_refused pre f post e w :
  (∀ fs g, g ∈ pre → os_Remove_err E fs g = None) →
  os_Remove_err E (removed pre (files w)) f = Some e →
  for_each (pre ++ f :: post) (remove_old E) w =
  (Exit 1,
   with_entry (FatalLevel, "Removing old config files: " +:+ e)
     (with_files (removed pre (files w)) w)).
Proof.
  revert w. induction pre as [|g pre IH]; intros w Hok Hrefused.
  - simpl in *. unfold bind at 1, remove_old at 1, bind, os_Remove.
    rewrite Hrefused. by destruct w.
  - simpl. unfold bind at 1, remove_old at 1, bind, os_Remove.
    rewrite (Hok (files w) g) by (by left). simpl.
    rewrite IH; [done| |done]. intros fs h Hh. apply Hok. by right.
Qed.

(** The global phase of a run that is not a dry run, once the artifact
    is created and rendered, is the cleanup. *)
Lemma write_global_rendered fl cfg w out :
  DryRun fl = false →
  os_Create_err E (files w) (global_path E cfg) = None →
  ExecuteTemplate E "global.tmpl" cfg (store w) = (out, None) →
  write_global E fl cfg w = clean_old E cfg (rendered (global_path E cfg) out w).
Proof.
  intros Hdry Hcreate Hrender.
  unfold write_global. rewrite Hdry. cbn [negb].
  unfold bind, logf, os_Create. cbn. rewrite Hcreate. cbn.
  unfold render_and_clean, bind, globalTemplate_ExecuteTemplate. cbn.
  rewrite Hrender. cbn.
  unfold clean_old, rendered, bind, logf, Glob, with_entry, with_files. cbn.
  by rewrite alter_insert_eq.
Qed.

Lemma write_global_refused fl cfg w err :
  DryRun fl = false →
  os_Create_err E (files w) (global_path E cfg) = Some err →
  write_global E fl cfg w =
  (Exit 1,
   with_entry (FatalLevel, "Create global BIRD output file: " +:+ err)
     (with_entry (DebugLevel, "Creating global config") w)).
Proof.
  intros Hdry Hcreate.
  unfold write_global. rewrite Hdry. cbn [negb].
  unfold bind, logf, os_Create. cbn. by rewrite Hcreate.
Qed.

(** How the run goes on from the global phase. *)
Lemma run_global_exit fl w cfg records s w' :
  loads E fl w cfg records →
  write_global E fl cfg (with_store records (started E fl w)) = (Exit s, w') →
  run E fl w = (Exit s, w').
Proof.
  intros Hloads Hglobal. rewrite (run_loads _ _ _ _ _ Hloads).
  unfold loaded_run. rewrite install_bind_run. unfold bind. by rewrite Hglobal.
Qed.

Lemma run_global_done fl w cfg records w' :
  loads E fl w cfg records →
  write_global E fl cfg (with_store records (started E fl w)) = (Done tt, w') →
  run E fl w = peer_pass E cfg w'.
Proof.
  intros Hloads Hglobal. rewrite (run_loads _ _ _ _ _ Hloads).
  unfold loaded_run. rewrite install_bind_run. unfold bind. by rewrite Hglobal.
Qed.

End Cleanup.

(** X5: when [os.Create] of the global artifact is refused, a run that
    is not a dry run exits with status 1 and the logged error before
    anything is written: the file system is as it was, and no record
    has been touched. *)
Theorem create_refused_writes_nothing (E : env) (fl : cli) (w : world)
    (cfg : config) (records : gmap addr peer) (err : string) :
  loads E fl w cfg records →
  DryRun fl = false →
  os_Create_err E (files w) (global_path E cfg) = Some err →
  result (run E fl) w = Exit 1 ∧
  files (exec (run E fl) w) = files w ∧
  store (exec (run E fl) w) = records ∧
  last (journal (exec (run E fl) w)) =
  Some (FatalLevel, "Create global BIRD output file: " +:+ err).
Proof.
  intros Hloads Hdry Hcreate.
  pose proof (write_global_refused E fl cfg
                (with_store records (started E fl w)) err Hdry Hcreate) as Hglobal.
  unfold result, exec. rewrite (run_global_exit _ _ _ _ _ _ _ Hloads Hglobal).
  repeat split; try done. apply last_snoc.
Qed.

Lemma create_refused_witness :
  result (run (Demo2.read_only Demo.one_peer) (Demo.flags false)) Demo.boot = Exit 1 ∧
  files (exec (run (Demo2.read_only Demo.one_peer) (Demo.flags false)) Demo.boot) =
  files Demo.boot.
Proof.
  destruct (create_refused_writes_nothing (Demo2.read_only Demo.one_peer)
              (Demo.flags false) Demo.boot Demo.one_peer.1 Demo.one_peer.2
              "open: read-only file system")
    as (Hexit & Hfiles & _); [|reflexivity|reflexivity|by split].
  split; [reflexivity|]. split; [reflexivity|].
  exists "peers: ...". split; [by vm_compute|reflexivity].
Defined.

(** ** The per-peer pass (lines 113-122) *)

Global Instance no_new_record_po : PreOrder no_new_record.
Proof.
  split; [by intros w a|].
  intros x y z Hxy Hyz a Ha. by apply Hxy, Hyz.
Qed.

Lemma set_ProtocolName_twice (u v : string) (p : peer) :
  set_ProtocolName v (set_ProtocolName u p) = set_ProtocolName v p.
Proof. reflexivity. Qed.

Section Pass.

Variable E : env.

Lemma check_peer_no_new_record entry : keeps no_new_record (check_peer E entry).
Proof.
  apply check_peer_frame; [apply _|]. intros name a p v w Hp b. simpl.
  destruct (decide (a = b)) as [<-|Hne]; [by rewrite Hp|].
  by rewrite lookup_insert_ne.
Qed.

(** The loop body reads and writes the store only: on two worlds with
    the same store it ends the same way, with the same store. *)
Lemma check_peer_store_only entry w w' :
  store w = store w' →
  result (check_peer E entry) w = result (check_peer E entry) w' ∧
  store (exec (check_peer E entry) w) = store (exec (check_peer E entry) w').
Proof.
  intros Hstore. destruct entry as [name peerData]. unfold result, exec.
  destruct (check_peer_cases E name peerData w)
    as [(v & a & p & Hv & -> & Hp)|Hpanic].
  - rewrite (check_peer_run _ _ _ _ _ _ Hv Hp).
    rewrite Hstore in Hp. rewrite (check_peer_run _ _ _ _ _ _ Hv Hp).
    simpl. by rewrite Hstore.
  - rewrite Hpanic.
    destruct (check_peer_cases E name peerData w')
      as [(v & a & p & Hv & -> & Hp)|Hpanic'].
    + rewrite <- Hstore in Hp.
      rewrite (check_peer_run _ _ _ _ _ _ Hv Hp) in Hpanic. discriminate.
    + by rewrite Hpanic'.
Qed.

Lemma for_each_check_peer_store_only l w w' :
  store w = store w' →
  result (for_each l (check_peer E)) w = result (for_each l (check_peer E)) w' ∧
  store (exec (for_each l (check_peer E)) w) =
  store (exec (for_each l (check_peer E)) w').
Proof.
  revert w w'. induction l as [|entry l IH]; intros w w' Hstore; [done|].
  simpl. rewrite !result_bind, !exec_bind.
  destruct (check_peer_store_only entry w w' Hstore) as [Hres Hst].
  rewrite <- Hres. destruct (result (check_peer E entry) w); [|done..].
  by apply IH.
Qed.

Lemma peer_pass_store_only cfg w w' :
  store w = store w' →
  result (peer_pass E cfg) w = result (peer_pass E cfg) w' ∧
  store (exec (peer_pass E cfg) w) = store (exec (peer_pass E cfg) w').
Proof. apply for_each_check_peer_store_only. Qed.

Lemma for_each_check_peer_never_exits l w :
  result (for_each l (check_peer E)) w = Done tt ∨
  result (for_each l (check_peer E)) w = Panic.
Proof.
  revert w. induction l as [|entry l IH]; intros w; [by left|].
  simpl. rewrite result_bind.
  destruct (check_peer_never_exits E entry w) as [-> | ->]; [apply IH|by right].
Qed.

(** A pass that returns has found every entry processable. *)
Lemma peer_pass_Done_processable cfg w n peerData :
  result (peer_pass E cfg) w = Done tt →
  Peers cfg !! n = Some peerData → processable w n peerData.
Proof.
  intros Hdone Hn%(range_order_elem E).
  destruct (for_each_visits no_new_record _ _ _ _
              (check_peer_no_new_record) Hn Hdone)
    as (w1 & Hback & Hbody & _).
  apply check_peer_Done in Hbody as (v & a & p & Hv & -> & Hp).
  split.
  - intros ->. discriminate Hv.
  - exists a. split; [done|]. apply Hback. by exists p.
Qed.

(** What a pass that returns has done to the record at an address. *)
Lemma for_each_check_peer_record l w a p :
  result (for_each l (check_peer E)) w = Done tt →
  store w !! a = Some p →
  (store (exec (for_each l (check_peer E)) w) !! a = Some p ∧
   ∀ n, (n, Some a) ∉ l) ∨
  (∃ n v, (n, Some a) ∈ l ∧ normalize (sanitize E) n = Some v ∧
          store (exec (for_each l (check_peer E)) w) !! a =
          Some (set_ProtocolName v p)).
Proof.
  revert w p. induction l as [|[n0 ptr0] l IH]; intros w p Hdone Hp.
  - left. split; [done|]. intros n. apply not_elem_of_nil.
  - cbn [for_each] in Hdone |- *.
    apply result_bind_Done in Hdone as ([] & Hbody & Hrest).
    rewrite exec_bind, Hbody.
    apply check_peer_Done in Hbody as (v0 & a0 & p0 & Hv0 & -> & Hp0).
    assert (exec (check_peer E (n0, Some a0)) w =
            with_entry (checking_line n0 (Asn p0))
              (with_store (<[a0 := set_ProtocolName v0 p0]> (store w)) w)) as Hw1
      by (unfold exec; by rewrite (check_peer_run _ _ _ _ _ _ Hv0 Hp0)).
    rewrite Hw1 in Hrest |- *. clear Hw1.
    set (w1 := with_entry _ _) in *.
    destruct (decide (a = a0)) as [->|Hne].
    + rewrite Hp in Hp0. injection Hp0 as <-.
      assert (store w1 !! a0 = Some (set_ProtocolName v0 p)) as Hp1
        by apply lookup_insert_eq.
      destruct (IH w1 _ Hrest Hp1) as [[Hsame Hnone]|(n & v & Hin & Hv & Hset)].
      * right. exists n0, v0. split; [by left|]. by split.
      * right. exists n, v. split; [by right|]. split; [done|].
        by rewrite Hset, set_ProtocolName_twice.
    + assert (store w1 !! a = Some p) as Hp1
        by (subst w1; simpl; by rewrite lookup_insert_ne).
      destruct (IH w1 _ Hrest Hp1) as [[Hsame Hnone]|(n & v & Hin & Hv & Hset)].
      * left. split; [done|]. intros n [[= _ ->]|Hin]%elem_of_cons; [done|].
        by apply (Hnone n).
      * right. exists n, v. split; [by right|]. by split.
Qed.

End Pass.

(** X6: the per-peer pass returns exactly when every entry of the peer
    table has a non-empty name and a pointer that leads to a record;
    otherwise it panics, and it never exits.  How it ends therefore
    depends neither on the order in which the table is enumerated nor
    on [sanitize]. *)
Theorem peer_pass_outcome (E : env) (cfg : config) (w : world) :
  (result (peer_pass E cfg) w = Done tt ↔
   ∀ n peerData, Peers cfg !! n = Some peerData → processable w n peerData) ∧
  (result (peer_pass E cfg) w = Done tt ∨ result (peer_pass E cfg) w = Panic) ∧
  (∀ E', result (peer_pass E' cfg) w = result (peer_pass E cfg) w).
Proof.
  assert (∀ E0, result (peer_pass E0 cfg) w = Done tt ↔
                ∀ n peerData, Peers cfg !! n = Some peerData →
                              processable w n peerData) as Hiff.
  { intros E0. split.
    - intros Hdone n peerData. by apply (peer_pass_Done_processable E0 cfg).
    - apply peer_pass_returns. }
  split; [apply Hiff|].
  split; [apply for_each_check_peer_never_exits|].
  intros E'.
  destruct (for_each_check_peer_never_exits E
              (proj1_sig (range_order E (Peers cfg))) w) as [Hdone|Hpanic].
  - unfold peer_pass at 2. rewrite Hdone.
    apply (Hiff E'). by apply (Hiff E).
  - unfold peer_pass at 2. rewrite Hpanic.
    destruct (for_each_check_peer_never_exits E'
                (proj1_sig (range_order E' (Peers cfg))) w) as [Hdone'|Hpanic'];
      [|done].
    fold (peer_pass E' cfg) in Hdone'.
    pose proof (proj2 (Hiff E) (proj1 (Hiff E') Hdone')) as HdoneE.
    unfold peer_pass in HdoneE. congruence.
Qed.

(** X7: what a per-peer pass that returns has done to the store.  A
    record that no entry of the table points to is exactly as it was;
    a record that entries point to has changed in [ProtocolName] only,
    which is now the normalized name of one of them, whatever it was
    before; for a record with a single name it is the normalized form
    of that name. *)
Theorem peer_pass_assigns (E : env) (cfg : config) (w : world)
    (a : addr) (p : peer) :
  result (peer_pass E cfg) w = Done tt →
  store w !! a = Some p →
  ((store (exec (peer_pass E cfg) w) !! a = Some p ∧
    ∀ n, Peers cfg !! n ≠ Some (Some a)) ∨
   (∃ n v, Peers cfg !! n = Some (Some a) ∧
           normalize (sanitize E) n = Some v ∧
           store (exec (peer_pass E cfg) w) !! a = Some (set_ProtocolName v p))) ∧
  (∀ n, Peers cfg !! n = Some (Some a) →
        (∀ n', Peers cfg !! n' = Some (Some a) → n' = n) →
        ∃ v, normalize (sanitize E) n = Some v ∧
             store (exec (peer_pass E cfg) w) !! a = Some (set_ProtocolName v p)).
Proof.
  intros Hdone Hp.
  pose proof (for_each_check_peer_record E _ w a p Hdone Hp) as Hrecord.
  fold (peer_pass E cfg) in Hrecord. split.
  - destruct Hrecord as [[Hsame Hnone]|(n & v & Hin & Hv & Hset)].
    + left. split; [done|]. intros n Hn%(range_order_elem E). by apply (Hnone n).
    + right. exists n, v. split; [by apply (range_order_lookup E)|]. by split.
  - intros n Hn Honly.
    destruct Hrecord as [[Hsame Hnone]|(n' & v & Hin & Hv & Hset)].
    + apply (range_order_elem E) in Hn. by destruct (Hnone n).
    + apply (range_order_lookup E), Honly in Hin as ->. by exists v.
Qed.

Lemma peer_pass_assigns_witness :
  (∃ v, normalize Sanitizer.sanitize "foo" = Some v ∧
        store (exec (peer_pass (Demo.installation Demo.ok_render Demo.one_peer)
                       Demo.one_peer.1)
                 (with_store Demo.one_peer.2 Demo.boot)) !! 1%positive =
        Some (set_ProtocolName v Demo.foo)).
Proof.
  refine (proj2 (peer_pass_assigns
                   (Demo.installation Demo.ok_render Demo.one_peer)
                   Demo.one_peer.1 (with_store Demo.one_peer.2 Demo.boot)
                   1%positive Demo.foo _ _) "foo" _ _).
  - by vm_compute.
  - apply lookup_singleton_eq.
  - apply lookup_singleton_eq.
  - intros n' Hn'. simpl in Hn'. by apply lookup_singleton_Some in Hn' as [<- _].
Defined.

Lemma peer_pass_outcome_witness :
  result (peer_pass (Demo.installation Demo.ok_render Demo2.two_names)
            Demo2.two_names.1)
    (with_store Demo2.two_names.2 Demo.boot) = Done tt ∧
  result (peer_pass (Demo.installation Demo.ok_render Demo2.nil_entry)
            Demo2.nil_entry.1)
    (with_store Demo2.nil_entry.2 Demo.boot) = Panic.
Proof.
  split.
  - apply (proj1 (peer_pass_outcome _ _ _)).
    intros n peerData Hn. simpl in Hn.
    assert (peerData = Some 1%positive ∧ n ≠ "") as [-> Hne].
    { apply lookup_insert_Some in Hn as [[<- <-]|[_ Hn]]; [done|].
      by apply lookup_singleton_Some in Hn as [<- <-]. }
    split; [done|]. exists 1%positive. split; [done|]. by exists Demo.foo.
  - destruct (proj1 (proj2 (peer_pass_outcome
                (Demo.installation Demo.ok_render Demo2.nil_entry)
                Demo2.nil_entry.1 (with_store Demo2.nil_entry.2 Demo.boot))))
      as [Hdone|Hpanic]; [|exact Hpanic].
    pose proof (proj1 (proj1 (peer_pass_outcome _ _ _)) Hdone) as Hall.
    destruct (Hall "foo" None (lookup_singleton_eq _ _)) as (_ & a & Ha & _).
    discriminate Ha.
Defined.

Lemma two_names_returns :
  result (peer_pass (Demo.installation Demo.ok_render Demo2.two_names)
            Demo2.two_names.1)
    (with_store Demo2.two_names.2 Demo.boot) = Done tt.
Proof. by vm_compute. Qed.

Section PassJournal.

Variable E : env.

Lemma entry_line_insert h a v p entry :
  h !! a = Some p →
  entry_line (<[a := set_ProtocolName v p]> h) entry = entry_line h entry.
Proof.
  intros Hp. destruct entry as [n [b|]]; [|done].
  unfold entry_line. simpl.
  destruct (decide (a = b)) as [<-|Hne].
  - by rewrite lookup_insert_eq, Hp.
  - by rewrite lookup_insert_ne.
Qed.

Lemma for_each_check_peer_journal l w :
  result (for_each l (check_peer E)) w = Done tt →
  journal (exec (for_each l (check_peer E)) w) =
  journal w ++ map (entry_line (store w)) l.
Proof.
  revert w. induction l as [|[n0 ptr0] l IH]; intros w Hdone.
  - simpl. by rewrite app_nil_r.
  - cbn [for_each] in Hdone |- *.
    apply result_bind_Done in Hdone as ([] & Hbody & Hrest).
    rewrite exec_bind, Hbody.
    apply check_peer_Done in Hbody as (v0 & a0 & p0 & Hv0 & -> & Hp0).
    assert (exec (check_peer E (n0, Some a0)) w =
            with_entry (checking_line n0 (Asn p0))
              (with_store (<[a0 := set_ProtocolName v0 p0]> (store w)) w)) as Hw1
      by (unfold exec; by rewrite (check_peer_run _ _ _ _ _ _ Hv0 Hp0)).
    rewrite Hw1 in Hrest |- *. rewrite (IH _ Hrest). simpl.
    rewrite <- app_assoc. f_equal. simpl. f_equal.
    + unfold entry_line. simpl. by rewrite Hp0.
    + apply map_ext. intros entry. by apply entry_line_insert.
Qed.

End PassJournal.

(** X8: a per-peer pass that returns adds to the journal exactly one
    line per entry of the peer table, in the order of enumeration, each
    naming the peer and the ASN of its record, and nothing else; the
    journal grows by the size of the table. *)
Theorem peer_pass_journal (E : env) (cfg : config) (w : world) :
  result (peer_pass E cfg) w = Done tt →
  journal (exec (peer_pass E cfg) w) =
  journal w ++ map (entry_line (store w)) (proj1_sig (range_order E (Peers cfg))) ∧
  length (journal (exec (peer_pass E cfg) w)) =
  (length (journal w) + size (Peers cfg))%nat.
Proof.
  intros Hdone.
  pose proof (for_each_check_peer_journal E _ w Hdone) as Hjournal.
  fold (peer_pass E cfg) in Hjournal. split; [done|].
  rewrite Hjournal, length_app, length_map. f_equal.
  destruct (range_order E (Peers cfg)) as [l Hl]. simpl.
  by rewrite Hl, length_map_to_list.
Qed.

Lemma peer_pass_journal_witness :
  length (journal (exec (peer_pass (Demo.installation Demo.ok_render Demo2.two_names)
                           Demo2.two_names.1)
                     (with_store Demo2.two_names.2 Demo.boot))) = 2%nat.
Proof.
  exact (proj2 (peer_pass_journal
                  (Demo.installation Demo.ok_render Demo2.two_names)
                  Demo2.two_names.1 (with_store Demo2.two_names.2 Demo.boot)
                  two_names_returns)).
Defined.

(** ** The phases together *)

Section Phases.

Variable E : env.

Lemma clean_old_unfold cfg w :
  clean_old E cfg w =
  match filepath_Glob E (files w) (path_Join E (BirdSocket cfg) "AS*.conf") with
  | inl e => log_Fatal e w
  | inr old => for_each old (remove_old E) w
  end.
Proof.
  unfold clean_old, bind, Glob.
  by destruct (filepath_Glob E (files w) _).
Qed.

Lemma loads_dry fl w cfg records :
  loads E fl w cfg records → loads E (dry fl) w cfg records.
Proof. done. Qed.

Lemma write_global_dry_run fl cfg w :
  DryRun fl = true →
  write_global E fl cfg w =
  (Done tt,
   with_entry
     (InfoLevel,
      "Dry run is enabled, skipped writing global config and removing old peer configs")
     w).
Proof. intros Hdry. unfold write_global. by rewrite Hdry. Qed.

End Phases.


(** X10: the global phase of a successful run.  In a run that is not a
    dry run, when the artifact is created, the template executes
    without error and none of the removals is refused, the file system
    at the end is the one before the run with the artifact holding the
    output of the template (not appended to what it held) and the paths
    that [filepath.Glob] returned for [AS*.conf] under [BirdSocket]
    removed: those paths are absent, the artifact holds the output
    unless it is among them, and every other file is as it was.  The
    run then ends as the per-peer pass ends on the loaded records. *)
Theorem global_phase_reconciles (E : env) (fl : cli) (w : world)
    (cfg : config) (records : gmap addr peer) (out : string) (old : list string) :
  loads E fl w cfg records →
  DryRun fl = false →
  os_Create_err E (files w) (global_path E cfg) = None →
  ExecuteTemplate E "global.tmpl" cfg records = (out, None) →
  filepath_Glob E (<[global_path E cfg := out]> (files w))
    (path_Join E (BirdSocket cfg) "AS*.conf") = inr old →
  (∀ fs f, f ∈ old → os_Remove_err E fs f = None) →
  files (exec (run E fl) w) = removed old (<[global_path E cfg := out]> (files w)) ∧
  (∀ f, f ∈ old → files (exec (run E fl) w) !! f = None) ∧
  (global_path E cfg ∉ old →
   files (exec (run E fl) w) !! global_path E cfg = Some out) ∧
  (∀ path, path ∉ old → path ≠ global_path E cfg →
           files (exec (run E fl) w) !! path = files w !! path) ∧
  result (run E fl) w = result (peer_pass E cfg) (with_store records w).
Proof.
  intros Hloads Hdry Hcreate Hrender Hglob Hok.
  set (w1 := with_store records (started E fl w)).
  assert (write_global E fl cfg w1 =
          (Done tt,
           with_files (removed old (<[global_path E cfg := out]> (files w)))
             (rendered (global_path E cfg) out w1))) as Hglobal.
  { rewrite (write_global_rendered E fl cfg w1 out Hdry Hcreate Hrender).
    rewrite clean_old_unfold. simpl. rewrite Hglob.
    by rewrite (for_each_remove_old_all E old _ Hok). }
  assert (files (exec (run E fl) w) =
          removed old (<[global_path E cfg := out]> (files w))) as Hfiles.
  { unfold exec. rewrite (run_global_done E _ _ _ _ _ Hloads Hglobal).
    apply peer_pass_same_files. }
  split; [done|]. rewrite Hfiles. split; [|split; [|split]].
  - intros f Hf. by rewrite lookup_removed, decide_True.
  - intros Hout. rewrite lookup_removed, decide_False by done.
    apply lookup_insert_eq.
  - intros path Hpath Hne. rewrite lookup_removed, decide_False by done.
    by apply lookup_insert_ne.
  - unfold result at 1. rewrite (run_global_done E _ _ _ _ _ Hloads Hglobal).
    by apply peer_pass_store_only.
Qed.

(** X11: when [filepath.Glob] rejects the pattern, a run that is not a
    dry run exits with status 1 and the logged error after the global
    artifact has been written: the artifact holds the output of the
    template, no file is removed and no record is touched. *)
Theorem glob_error_after_artifact (E : env) (fl : cli) (w : world)
    (cfg : config) (records : gmap addr peer) (out e : string) :
  loads E fl w cfg records →
  DryRun fl = false →
  os_Create_err E (files w) (global_path E cfg) = None →
  ExecuteTemplate E "global.tmpl" cfg records = (out, None) →
  filepath_Glob E (<[global_path E cfg := out]> (files w))
    (path_Join E (BirdSocket cfg) "AS*.conf") = inl e →
  result (run E fl) w = Exit 1 ∧
  files (exec (run E fl) w) = <[global_path E cfg := out]> (files w) ∧
  store (exec (run E fl) w) = records ∧
  last (journal (exec (run E fl) w)) = Some (FatalLevel, e).
Proof.
  intros Hloads Hdry Hcreate Hrender Hglob.
  set (w1 := with_store records (started E fl w)).
  assert (write_global E fl cfg w1 =
          (Exit 1, with_entry (FatalLevel, e)
                     (rendered (global_path E cfg) out w1))) as Hglobal.
  { rewrite (write_global_rendered E fl cfg w1 out Hdry Hcreate Hrender).
    rewrite clean_old_unfold. simpl. by rewrite Hglob. }
  unfold result, exec. rewrite (run_global_exit E _ _ _ _ _ _ Hloads Hglobal).
  repeat split; try done. apply last_snoc.
Qed.

(** X12: the cleanup stops at the first removal the system refuses.  In
    a run that is not a dry run, when the artifact is written and the
    removal of one of the paths that [filepath.Glob] returned is
    refused, the run exits with status 1 and the logged error; the
    paths before it in the list are removed, that path and every other
    file are as they were after the artifact was written, and no record
    is touched. *)
Theorem refused_removal_stops_cleanup (E : env) (fl : cli) (w : world)
    (cfg : config) (records : gmap addr peer) (out e f : string)
    (pre post : list string) :
  loads E fl w cfg records →
  DryRun fl = false →
  os_Create_err E (files w) (global_path E cfg) = None →
  ExecuteTemplate E "global.tmpl" cfg records = (out, None) →
  filepath_Glob E (<[global_path E cfg := out]> (files w))
    (path_Join E (BirdSocket cfg) "AS*.conf") = inr (pre ++ f :: post) →
  (∀ fs g, g ∈ pre → os_Remove_err E fs g = None) →
  os_Remove_err E (removed pre (<[global_path E cfg := out]> (files w))) f = Some e →
  result (run E fl) w = Exit 1 ∧
  files (exec (run E fl) w) = removed pre (<[global_path E cfg := out]> (files w)) ∧
  (∀ path, path ∉ pre →
           files (exec (run E fl) w) !! path =
           <[global_path E cfg := out]> (files w) !! path) ∧
  store (exec (run E fl) w) = records ∧
  last (journal (exec (run E fl) w)) =
  Some (FatalLevel, "Removing old config files: " +:+ e).
Proof.
  intros Hloads Hdry Hcreate Hrender Hglob Hok Hrefused.
  set (w1 := with_store records (started E fl w)).
  assert (write_global E fl cfg w1 =
          (Exit 1,
           with_entry (FatalLevel, "Removing old config files: " +:+ e)
             (with_files (removed pre (<[global_path E cfg := out]> (files w)))
                (rendered (global_path E cfg) out w1)))) as Hglobal.
  { rewrite (write_global_rendered E fl cfg w1 out Hdry Hcreate Hrender).
    rewrite clean_old_unfold. simpl. rewrite Hglob.
    by rewrite (for_each_remove_old_refused E pre f post e
                  (rendered (global_path E cfg) out w1) Hok Hrefused). }
  unfold result, exec. rewrite (run_global_exit E _ _ _ _ _ _ Hloads Hglobal).
  simpl. repeat split; try done.
  - intros path Hpath. by rewrite lookup_removed, decide_False.
  - apply last_snoc.
Qed.

Lemma demo2_loads loaded glob refused (dry : bool) :
  loads (Demo2.installation loaded glob refused) (Demo.flags dry) Demo.boot
    loaded.1 loaded.2.
Proof.
  split; [reflexivity|]. split; [reflexivity|].
  exists "peers: ...". split; [by vm_compute|by destruct loaded].
Qed.


Lemma global_phase_reconciles_witness :
  files (exec (run (Demo2.installation Demo2.socket_in_directory Demo.Glob (λ _, false))
                 (Demo.flags false)) Demo.boot) !! Demo2.stale = None ∧
  files (exec (run (Demo2.installation Demo2.socket_in_directory Demo.Glob (λ _, false))
                 (Demo.flags false)) Demo.boot) !! "/etc/bird/bird.conf" =
  Some "router id 192.0.2.2;" ∧
  files (exec (run (Demo2.installation Demo2.socket_in_directory Demo.Glob (λ _, false))
                 (Demo.flags false)) Demo.boot) !! "/etc/bcg.yml" =
  files Demo.boot !! "/etc/bcg.yml".
Proof.
  destruct (global_phase_reconciles
              (Demo2.installation Demo2.socket_in_directory Demo.Glob (λ _, false))
              (Demo.flags false) Demo.boot
              Demo2.socket_in_directory.1 Demo2.socket_in_directory.2
              "router id 192.0.2.2;" [Demo2.stale])
    as (_ & Hgone & Hartifact & Hother & _).
  - apply demo2_loads.
  - reflexivity.
  - reflexivity.
  - reflexivity.
  - by vm_compute.
  - reflexivity.
  - split; [apply Hgone; by left|]. split.
    + apply Hartifact. intros [H|H]%elem_of_cons.
      * vm_compute in H. discriminate.
      * by apply elem_of_nil in H.
    + apply Hother.
      * intros [H|H]%elem_of_cons; [discriminate|by apply elem_of_nil in H].
      * intros H. vm_compute in H. discriminate.
Defined.

Lemma glob_error_witness :
  result (run (Demo2.installation Demo.one_peer
                 (λ _ _, inl "syntax error in pattern") (λ _, false))
            (Demo.flags false)) Demo.boot = Exit 1 ∧
  files (exec (run (Demo2.installation Demo.one_peer
                      (λ _ _, inl "syntax error in pattern") (λ _, false))
                 (Demo.flags false)) Demo.boot) =
  <[ "/etc/bird/bird.conf" := "router id 192.0.2.2;" ]> (files Demo.boot).
Proof.
  destruct (glob_error_after_artifact
              (Demo2.installation Demo.one_peer
                 (λ _ _, inl "syntax error in pattern") (λ _, false))
              (Demo.flags false) Demo.boot Demo.one_peer.1 Demo.one_peer.2
              "router id 192.0.2.2;" "syntax error in pattern"
              (demo2_loads _ _ _ false) eq_refl eq_refl eq_refl eq_refl)
    as (Hexit & Hfiles & _).
  split; [exact Hexit|exact Hfiles].
Defined.

Lemma refused_removal_witness :
  result (run (Demo2.installation Demo2.socket_in_directory Demo.Glob
                 (λ f, bool_decide (f = Demo2.stale)))
            (Demo.flags false)) Demo.boot = Exit 1 ∧
  files (exec (run (Demo2.installation Demo2.socket_in_directory Demo.Glob
                      (λ f, bool_decide (f = Demo2.stale)))
                 (Demo.flags false)) Demo.boot) !! Demo2.stale =
  Some "protocol bgp OLD { }".
Proof.
  destruct (refused_removal_stops_cleanup
              (Demo2.installation Demo2.socket_in_directory Demo.Glob
                 (λ f, bool_decide (f = Demo2.stale)))
              (Demo.flags false) Demo.boot
              Demo2.socket_in_directory.1 Demo2.socket_in_directory.2
              "router id 192.0.2.2;" "remove: permission denied" Demo2.stale
              [] [])
    as (Hexit & _ & Hkept & _).
  - apply demo2_loads.
  - reflexivity.
  - reflexivity.
  - reflexivity.
  - by vm_compute.
  - by intros fs g ?%elem_of_nil.
  - reflexivity.
  - split; [exact Hexit|]. rewrite Hkept by apply not_elem_of_nil.
    by vm_compute.
Defined.

(** ** [printPeerInfo] (lines 24-36) *)

Section Print.

Variable contains : list string → string → bool.
Variable reflect_fields : peer → list (string * string).

Hypothesis contains_search :
  ∀ x, contains excludedFields x = true ↔ x ∈ excludedFields.

Lemma for_each_print_attribute peerName fields w :
  for_each fields (print_attribute contains peerName) w =
  (Done tt,
   {| files := files w; store := store w;
      journal := journal w ++
                 map (attribute_line peerName)
                   (filter (λ f, f.1 ∉ excludedFields) fields) |}).
Proof.
  revert w. induction fields as [|f fields IH]; intros w.
  - simpl. rewrite app_nil_r. by destruct w.
  - cbn [for_each]. unfold bind at 1, print_attribute at 1.
    rewrite filter_cons.
    destruct (contains excludedFields f.1) eqn:Hf; simpl.
    + apply contains_search in Hf. rewrite decide_False by auto.
      rewrite IH. by destruct w.
    + assert (f.1 ∉ excludedFields) as Hout
        by (rewrite <- contains_search; congruence).
      rewrite decide_True by done. rewrite IH. simpl.
      by rewrite <- app_assoc.
Qed.

End Print.



(** ** More on the disabled block (lines 124-175) *)

Lemma pretty_N_not_empty (n : N) : "AS" +:+ pretty n ≠ "".
Proof. done. Qed.

Lemma fill_limit4_frame (db : peeringDbData) (peerName : string) (p : peer) :
  let p' := (Disabled.fill_limit4 peerName db p).1 in
  Asn p' = Asn p ∧ Type_ p' = Type_ p ∧ ProtocolName p' = ProtocolName p ∧
  QueryTime p' = QueryTime p ∧ AsSet p' = AsSet p.
Proof. unfold Disabled.fill_limit4. by destruct (ImportLimit4 p =? 0). Qed.

Lemma fill_limit6_frame (db : peeringDbData) (peerName : string) (p : peer) :
  let p' := (Disabled.fill_limit6 peerName db p).1 in
  Asn p' = Asn p ∧ Type_ p' = Type_ p ∧ ProtocolName p' = ProtocolName p ∧
  QueryTime p' = QueryTime p ∧ AsSet p' = AsSet p.
Proof. unfold Disabled.fill_limit6. by destruct (ImportLimit6 p =? 0). Qed.

Lemma resolve_AsSet_frame (db : peeringDbData) (peerName : string) (p : peer) :
  let p' := (Disabled.resolve_AsSet peerName db p).1 in
  Asn p' = Asn p ∧ Type_ p' = Type_ p ∧ ProtocolName p' = ProtocolName p ∧
  QueryTime p' = QueryTime p ∧
  (AsSet p = "" →
   AsSet p' =
   (if decide ((Disabled.first_element peerName (DbAsSet db)).1 = "")
    then "AS" +:+ pretty (Asn p)
    else (Disabled.trim_prefix peerName
            (Disabled.first_element peerName (DbAsSet db)).1).1)).
Proof.
  unfold Disabled.resolve_AsSet.
  destruct (decide (AsSet p = "")) as [Hempty|Hmanual]; [|by repeat split].
  destruct (Disabled.first_element peerName (DbAsSet db)) as [r log1]. simpl.
  destruct (Disabled.trim_prefix peerName r) as [t log2]. simpl.
  by destruct (decide (r = "")).
Qed.

Lemma disabled_enrich_fields (now : string) (db : peeringDbData)
    (peerName : string) (p : peer) :
  NoPeeringDB p = false →
  Asn (Disabled.enrich now db peerName p).1 = Asn p ∧
  Type_ (Disabled.enrich now db peerName p).1 = Type_ p ∧
  ProtocolName (Disabled.enrich now db peerName p).1 = ProtocolName p ∧
  QueryTime (Disabled.enrich now db peerName p).1 = now ∧
  (AsSet p = "" →
   AsSet (Disabled.enrich now db peerName p).1 =
   (if decide ((Disabled.first_element peerName (DbAsSet db)).1 = "")
    then "AS" +:+ pretty (Asn p)
    else (Disabled.trim_prefix peerName
            (Disabled.first_element peerName (DbAsSet db)).1).1)).
Proof.
  intros Hopt. unfold Disabled.enrich. rewrite Hopt.
  pose proof (fill_limit4_frame db peerName (Disabled.set_QueryTime now p))
    as (Ha1 & Ht1 & Hn1 & Hq1 & Hs1).
  destruct (Disabled.fill_limit4 _ _ _) as [p1 log1].
  pose proof (fill_limit6_frame db peerName p1) as (Ha2 & Ht2 & Hn2 & Hq2 & Hs2).
  destruct (Disabled.fill_limit6 _ _ _) as [p2 log2].
  pose proof (resolve_AsSet_frame db peerName p2) as (Ha3 & Ht3 & Hn3 & Hq3 & Hs3).
  destruct (Disabled.resolve_AsSet _ _ _) as [p3 log3].
  simpl in *.
  rewrite Ha3, Ha2, Ha1, Ht3, Ht2, Ht1, Hn3, Hn2, Hn1, Hq3, Hq2, Hq1.
  repeat split; try done.
  intros Hempty. rewrite Hs3 by congruence. by rewrite Ha2, Ha1.
Qed.

(** X14: the commented-out enrichment (lines 124-170), as written,
    leaves a peer that has opted out exactly as it is and logs nothing;
    for any other peer it stamps the query time, fills each import
    limit from the registry only when it is zero, keeps a manual
    AS-SET, and changes neither the ASN, the session type nor the
    protocol name. *)
Theorem disabled_enrich_explicit_wins (now : string) (db : peeringDbData)
    (peerName : string) (p : peer) :
  (NoPeeringDB p = true → Disabled.enrich now db peerName p = (p, [])) ∧
  (NoPeeringDB p = false →
   import_limit_fallback db p (Disabled.enrich now db peerName p).1 ∧
   (AsSet p ≠ "" → AsSet (Disabled.enrich now db peerName p).1 = AsSet p) ∧
   QueryTime (Disabled.enrich now db peerName p).1 = now ∧
   Asn (Disabled.enrich now db peerName p).1 = Asn p ∧
   Type_ (Disabled.enrich now db peerName p).1 = Type_ p ∧
   ProtocolName (Disabled.enrich now db peerName p).1 = ProtocolName p).
Proof.
  split.
  - intros Hopt. unfold Disabled.enrich. by rewrite Hopt.
  - intros Hopt.
    destruct (disabled_enrich_fields now db peerName p Hopt)
      as (Hasn & Htype & Hname & Htime & _).
    split; [by apply disabled_import_limit_fallback|].
    split; [apply disabled_keeps_manual_AsSet|done].
Qed.

Lemma disabled_enrich_witness :
  ImportLimit4 (Disabled.enrich "now" Demo.registry_500 "foo" Demo.foo_manual).1 = 200 ∧
  ImportLimit6 (Disabled.enrich "now" Demo.registry_500 "foo" Demo.foo_manual).1 = 500 ∧
  AsSet (Disabled.enrich "now" Demo.registry_500 "foo" Demo.foo_manual).1 = "AS-FOO".
Proof.
  destruct (proj2 (disabled_enrich_explicit_wins "now" Demo.registry_500 "foo"
                     Demo.foo_manual) eq_refl)
    as ([H4 H6] & Hset & _).
  split; [exact H4|]. split; [exact H6|]. by apply Hset.
Defined.

(** X15: after the commented-out enrichment of a peer that has not
    opted out, the fatal test of lines 172-175 can fire only for a peer
    of type [peer] or [downstream] without a manual AS-SET whose
    registry AS-SET, reduced to its first element, has the scope
    separator [::] followed by an empty field: an empty registry value
    is replaced by [AS<asn>], but an empty field after the separator is
    not. *)
Theorem disabled_fatal_only_after_separator (now : string) (db : peeringDbData)
    (peerName : string) (p : peer) :
  NoPeeringDB p = false →
  Disabled.missing_AsSet (Disabled.enrich now db peerName p).1 = true →
  requires_filter p = true ∧ AsSet p = "" ∧
  strings_Contains (Disabled.first_element peerName (DbAsSet db)).1 "::" = true ∧
  Disabled.field 1 (Disabled.first_element peerName (DbAsSet db)).1 "::" = "".
Proof.
  intros Hopt [Hempty Hfilter]%andb_true_iff.
  apply bool_decide_eq_true in Hempty.
  destruct (disabled_enrich_fields now db peerName p Hopt)
    as (_ & Htype & _ & _ & Hresolved).
  assert (requires_filter p = true) as Hreq.
  { revert Hfilter. unfold requires_filter. by rewrite Htype. }
  assert (AsSet p = "") as Hnone.
  { destruct (decide (AsSet p = "")) as [|Hmanual]; [done|].
    by rewrite (disabled_keeps_manual_AsSet now db peerName p Hmanual) in Hempty. }
  split; [done|]. split; [done|].
  rewrite (Hresolved Hnone) in Hempty. clear Hresolved.
  destruct (decide ((Disabled.first_element peerName (DbAsSet db)).1 = ""))
    as [|Hvalue]; [by apply pretty_N_not_empty in Hempty|].
  revert Hempty. unfold Disabled.trim_prefix.
  destruct (strings_Contains _ "::"); simpl; [done|].
  intros Hempty. by destruct Hvalue.
Qed.

Lemma disabled_fatal_witness :
  strings_Contains "RIPE::" "::" = true ∧ Disabled.field 1 "RIPE::" "::" = "".
Proof.
  destruct (disabled_fatal_only_after_separator "now"
              {| MaxPfx4 := 500; MaxPfx6 := 500; DbAsSet := "RIPE::" |}
              "foo" Demo.foo eq_refl) as (_ & _ & Hsep & Hfield).
  - by vm_compute.
  - split; [exact Hsep|exact Hfield].
Defined.
